(** * ccproxy: a shallow embedding of the response-rewriting proxy

    This development models the Express proxy of [src/index.js] (the
    mirror-first revision, lines 36-274): the text rewriter [rewriteText],
    the challenge detector inlined in [onProxyRes], the response assembler
    of [onProxyRes], the cached [backendFetch] and the [/fetch] route.  The
    earlier revisions kept under [src/unnamed] are modelled where a claim
    refers to them ([rewriteHtml] of part_001, [isCloudflareChallengeStatus]
    of part_002).

    JavaScript strings are modelled as lists of 8-bit characters
    ([list ascii]): the rewriter is studied on text whose UTF-16 code units
    are all below 256 (Latin-1).  Each regular expression of the source is
    translated into a hand-written matcher with the same leftmost,
    backtracking semantics, and [String.prototype.replace] with the [g]
    flag into [replace_all]. *)

From Stdlib Require Import Ascii String List Bool Arith Lia ZArith.
From stdpp Require Import base list gmap strings.
Import ListNotations.

Open Scope list_scope.

(** ** Characters and text *)

Abbreviation text := (list ascii).

Definition lit (s : string) : text := list_ascii_of_string s.

Definition chr (n : nat) : ascii := ascii_of_nat n.

(** The double quote, which cannot be written inside a string literal here. *)
Definition dq : text := [chr 34].

Definition in_codes (c : ascii) (l : list nat) : bool :=
  existsb (Nat.eqb (nat_of_ascii c)) l.

(** JavaScript [\s] restricted to Latin-1: TAB, LF, VT, FF, CR, SPACE, NBSP. *)
Definition is_space (c : ascii) : bool := in_codes c [9; 10; 11; 12; 13; 32; 160].

(** JavaScript [.] (without the [s] flag) excludes the line terminators LF and CR. *)
Definition is_line_term (c : ascii) : bool := in_codes c [10; 13].

Definition is_quote (c : ascii) : bool := in_codes c [34; 39].

(** The characters that stop the path class of the CDN pattern: white
    space, the double quote, the apostrophe, [<] and [>]. *)
Definition path_stop (c : ascii) : bool := is_space c || in_codes c [34; 39; 60; 62].

(** [String.prototype.toLowerCase] on Latin-1 code units. *)
Definition lower_char (c : ascii) : ascii :=
  let n := nat_of_ascii c in
  if ((65 <=? n) && (n <=? 90)) || ((192 <=? n) && (n <=? 222) && negb (n =? 215))
  then chr (n + 32) else c.

Definition toLowerCase (s : text) : text := map lower_char s.

(** Canonicalisation of a regular expression with the [i] flag, for ASCII
    letters (the only letters of the patterns matched case-insensitively). *)
Definition upper_ascii (c : ascii) : ascii :=
  let n := nat_of_ascii c in
  if (97 <=? n) && (n <=? 122) then chr (n - 32) else c.

Fixpoint prefixb (p s : text) : bool :=
  match p, s with
  | [], _ => true
  | a :: p', b :: s' => Ascii.eqb a b && prefixb p' s'
  | _ :: _, [] => false
  end.

(** [s.includes(p)]. *)
Fixpoint contains (p s : text) : bool :=
  prefixb p s || match s with [] => false | _ :: s' => contains p s' end.

Fixpoint prefix_ci (p s : text) : bool :=
  match p, s with
  | [], _ => true
  | a :: p', b :: s' => Ascii.eqb (upper_ascii a) (upper_ascii b) && prefix_ci p' s'
  | _ :: _, [] => false
  end.

(** [encodeURIComponent] on Latin-1 code units: unreserved characters are
    kept, any other code point is written as the percent-escaped bytes of its
    UTF-8 encoding (one byte below 128, two bytes from 128 to 255). *)
Definition uri_unreserved (c : ascii) : bool :=
  let n := nat_of_ascii c in
  ((65 <=? n) && (n <=? 90)) || ((97 <=? n) && (n <=? 122)) || ((48 <=? n) && (n <=? 57))
  || in_codes c [45; 95; 46; 33; 126; 42; 39; 40; 41].

Definition hex_digit (n : nat) : ascii := if n <? 10 then chr (48 + n) else chr (55 + n).

Definition pct (b : nat) : text := [chr 37; hex_digit (b / 16); hex_digit (b mod 16)].

Definition encode_char (c : ascii) : text :=
  let n := nat_of_ascii c in
  if uri_unreserved c then [c]
  else if n <? 128 then pct n
  else pct (192 + n / 64) ++ pct (128 + n mod 64).

Definition encodeURIComponent (s : text) : text := flat_map encode_char s.

(** ** Global replacement

    A matcher tries the regular expression at the head of the text and
    returns the matched text, its replacement and the rest of the input. *)

Definition matcher := text -> option (text * text * text).

(** [s.replace(re, f)] with a global [re] that never matches the empty
    string: scan left to right, replace each leftmost match, resume after it. *)
Fixpoint replace_all_n (n : nat) (mt : matcher) (s : text) : text :=
  match n with
  | O => s
  | S n' =>
      match s with
      | [] => []
      | c :: s' =>
          match mt s with
          | Some (_, r, rest) => r ++ replace_all_n n' mt rest
          | None => c :: replace_all_n n' mt s'
          end
      end
  end.

Definition replace_all (mt : matcher) (s : text) : text := replace_all_n (length s) mt s.

(** A regular expression that is an alternation of literals, tried in order. *)
Fixpoint first_prefix (ps : list text) (s : text) : option text :=
  match ps with
  | [] => None
  | p :: ps' => if prefixb p s then Some p else first_prefix ps' s
  end.

Definition lit_rule (ps : list text) (rep : text) : matcher := fun s =>
  match first_prefix ps s with
  | Some p => Some (p, rep, drop (length p) s)
  | None => None
  end.

(** [s.replace(/p/i, rep)]: only the first case-insensitive match. *)
Fixpoint replace_first_ci (p rep s : text) : text :=
  match s with
  | [] => []
  | c :: s' => if prefix_ci p s then rep ++ drop (length p) s else c :: replace_first_ci p rep s'
  end.

(** ** The Content Rewriter of index.js *)

Definition PROXY_PREFIX : text := lit "/cookieclicker".

(** [/https?:\/\/orteil\.dashnet\.org\/cookieclicker/g] *)
Definition origin_prefixed_pats : list text :=
  [lit "https://orteil.dashnet.org/cookieclicker"; lit "http://orteil.dashnet.org/cookieclicker"].
(** [/https?:\/\/orteil\.dashnet\.org/g] *)
Definition origin_pats : list text :=
  [lit "https://orteil.dashnet.org"; lit "http://orteil.dashnet.org"].
(** [/https?:\/\/dashnet\.org/g] *)
Definition dashnet_pats : list text := [lit "https://dashnet.org"; lit "http://dashnet.org"].

Definition rewrite_origin_prefixed (s : text) : text :=
  replace_all (lit_rule origin_prefixed_pats PROXY_PREFIX) s.
Definition rewrite_origin (s : text) : text := replace_all (lit_rule origin_pats PROXY_PREFIX) s.
Definition rewrite_dashnet (s : text) : text := replace_all (lit_rule dashnet_pats PROXY_PREFIX) s.

(** [/https?:\/\/(ajax\.googleapis\.com|...|cdnjs\.cloudflare\.com)(\/P)/g], where P is
    a greedy run of PATH characters and
    PATH is the class of all characters except white space, the double quote,
    the apostrophe, [<] and [>]. *)
Definition cdn_hosts : list text :=
  map lit ["ajax.googleapis.com"; "fonts.googleapis.com"; "fonts.gstatic.com";
           "cdn.jsdelivr.net"; "cdnjs.cloudflare.com"].

Definition match_scheme (s : text) : option (text * text) :=
  if prefixb (lit "https://") s then Some (lit "https://", drop 8 s)
  else if prefixb (lit "http://") s then Some (lit "http://", drop 7 s)
  else None.

(** The host alternation followed by the [\/] that starts the path group. *)
Fixpoint match_host_slash (hs : list text) (r : text) : option (text * text) :=
  match hs with
  | [] => None
  | h :: hs' =>
      if prefixb (h ++ lit "/") r then Some (h ++ lit "/", drop (length h + 1) r)
      else match_host_slash hs' r
  end.

(** Greedy run of PATH characters. *)
Fixpoint span_path (s : text) : text * text :=
  match s with
  | [] => ([], [])
  | c :: s' => if path_stop c then ([], s) else let '(p, r) := span_path s' in (c :: p, r)
  end.

Definition match_cdn : matcher := fun s =>
  match match_scheme s with
  | None => None
  | Some (sch, r) =>
      match match_host_slash cdn_hosts r with
      | None => None
      | Some (hs, r') =>
          let '(p, rest) := span_path r' in
          let m := sch ++ hs ++ p in
          Some (m, lit "/fetch?url=" ++ encodeURIComponent m, rest)
      end
  end.

Definition rewrite_cdn (s : text) : text := replace_all match_cdn s.

(** Greedy run of characters other than the double quote. *)
Fixpoint span_not_dq (s : text) : text * text :=
  match s with
  | [] => ([], [])
  | c :: s' => if Ascii.eqb c (chr 34) then ([], s) else let '(v, r) := span_not_dq s' in (c :: v, r)
  end.

(** [/\sNAME=Q[^Q]*Q/g] (Q the double quote), replaced by the empty string. *)
Definition match_attr (name : text) : matcher := fun s =>
  match s with
  | [] => None
  | c :: r =>
      if is_space c && prefixb (name ++ lit "=" ++ dq) r then
        let '(v, r2) := span_not_dq (drop (length name + 2) r) in
        match r2 with
        | [] => None
        | q :: r3 => Some (c :: name ++ lit "=" ++ dq ++ v ++ [q], [], r3)
        end
      else None
  end.

Definition strip_integrity (s : text) : text := replace_all (match_attr (lit "integrity")) s.
Definition strip_crossorigin (s : text) : text := replace_all (match_attr (lit "crossorigin")) s.

Definition head_close : text := lit "</head>".

Definition safetyScript : text :=
lit "
  <script>
  (function(){
    const PROXY = " ++ dq ++ lit "/cookieclicker" ++ dq ++ lit ";
    const ORIG_HOST = " ++ dq ++ lit "orteil.dashnet.org" ++ dq ++ lit ";
    // override simple location changes
    const origAssign = window.location.assign;
    const origReplace = window.location.replace;
    window.location.assign = function(u){ try { if(typeof u === 'string' && u.includes(ORIG_HOST)) u = u.replace(/https?:\/\/orteil\.dashnet\.org/g, PROXY); } catch(e){} return origAssign.call(this, u); };
    window.location.replace = function(u){ try { if(typeof u === 'string' && u.includes(ORIG_HOST)) u = u.replace(/https?:\/\/orteil\.dashnet\.org/g, PROXY); } catch(e){} return origReplace.call(this, u); };
    const origOpen = window.open;
    window.open = function(u, n, o){ try { if(typeof u === 'string' && u.includes(ORIG_HOST)) u = u.replace(/https?:\/\/orteil\.dashnet\.org/g, PROXY); } catch(e){} return origOpen.call(this, u, n, o); };
    // patch fetch to rewrite origin usage
    const origFetch = window.fetch;
    window.fetch = function(input, init){
      try {
        const url = (typeof input === 'string') ? input : input.url;
        if (url && url.includes(ORIG_HOST)) {
          const newUrl = url.replace(/https?:\/\/orteil\.dashnet\.org/g, PROXY);
          if (typeof input === 'string') input = newUrl;
          else input = new Request(newUrl, input);
        }
      } catch(e){}
      return origFetch.call(this, input, init);
    };
  })();
  </script>
  ".

(** [if (s.includes(HC)) s = s.replace(/<\/head>/i, safetyScript + HC)]
    where HC is the closing head tag. *)
Definition inject_safety (s : text) : text :=
  if contains head_close s then replace_first_ci head_close (safetyScript ++ head_close) s else s.

Definition rewriteText (bodyStr : text) : text :=
  let s := rewrite_origin_prefixed bodyStr in
  let s := rewrite_origin s in
  let s := rewrite_dashnet s in
  let s := rewrite_cdn s in
  let s := strip_integrity s in
  let s := strip_crossorigin s in
  inject_safety s.

(** ** Decidable overlap conditions

    [no_overlap q r] says that no occurrence of [q] can overlap a copy of
    the replacement [r] spliced between two texts. *)

Definition compat (x y : text) : bool := prefixb x y || prefixb y x.

Definition no_overlap (q r : text) : bool :=
  forallb (fun k => negb (compat (drop k q) r)) (seq 0 (length q)) &&
  forallb (fun j => negb (compat (drop j r) q)) (seq 1 (length r - 1)).

(** Characters that [encodeURIComponent] can emit for a text without
    apostrophes: unreserved characters other than the apostrophe, and [%]. *)
Definition enc_char (c : ascii) : bool :=
  (uri_unreserved c && negb (Ascii.eqb c (chr 39))) || Ascii.eqb c (chr 37).

(** [ct y]: [y] can be a prefix of an encoded text followed by nothing or by
    a character that stops a CDN path. *)
Fixpoint ct (y : text) : bool :=
  match y with
  | [] => true
  | c :: y' => if enc_char c then ct y' else path_stop c
  end.

Definition fits_after (p x : text) : bool :=
  prefixb x p || (prefixb p x && ct (drop (length p) x)).

Definition fetch_prefix : text := lit "/fetch?url=".

Definition cdn_safe (q : text) : bool :=
  negb (bool_decide (q = [])) &&
  forallb (fun k => negb (fits_after fetch_prefix (drop k q))) (seq 1 (length q - 1)) &&
  forallb (fun j => negb (fits_after (drop j fetch_prefix) q)) (seq 0 (length fetch_prefix)) &&
  negb (match q with [] => false | c :: _ => enc_char c && ct q end).

(** A matcher consumes a non-empty prefix of its input. *)
Definition matcher_wf (mt : matcher) : Prop :=
  forall s m r rest, mt s = Some (m, r, rest) -> s = m ++ rest /\ m <> [].



(** Literals used to state properties of the rewriter: the two absolute
    origin URLs, the openings of the two stripped attributes and the
    scheme separator. *)
Definition origin_https : text := lit "https://orteil.dashnet.org".
Definition origin_http : text := lit "http://orteil.dashnet.org".
Definition integrity_open : text := lit "integrity" ++ lit "=" ++ dq.
Definition crossorigin_open : text := lit "crossorigin" ++ lit "=" ++ dq.
Definition scheme_sep : text := lit "://".

(** ** Protocol-relative references in [rewriteHtml] of part_001

    The rule NAME=Q//(.*?)Q with the [g] flag, where each Q is either
    quote character, replaced by NAME, an equals sign, a double quote,
    /fetch?url= followed by the encoded URL https:// ++ g1, and a closing
    double quote. The lazy group stops at the first quote; it cannot cross
    a line terminator. *)
Fixpoint lazy_to_quote (s : text) : option (text * ascii * text) :=
  match s with
  | [] => None
  | c :: s' =>
      if is_quote c then Some ([], c, s')
      else if is_line_term c then None
      else match lazy_to_quote s' with
           | Some (g, q, r) => Some (c :: g, q, r)
           | None => None
           end
  end.

Definition match_proto_rel (name : text) : matcher := fun s =>
  if prefixb (name ++ lit "=") s then
    match drop (length name + 1) s with
    | q0 :: r =>
        if is_quote q0 && prefixb (lit "//") r then
          match lazy_to_quote (drop 2 r) with
          | Some (g1, q1, rest) =>
              Some (name ++ lit "=" ++ [q0] ++ lit "//" ++ g1 ++ [q1],
                    name ++ lit "=" ++ dq ++ lit "/fetch?url=" ++
                      encodeURIComponent (lit "https://" ++ g1) ++ dq,
                    rest)
          | None => None
          end
        else None
    | [] => None
    end
  else None.

Definition rewrite_src_proto_rel (s : text) : text := replace_all (match_proto_rel (lit "src")) s.
Definition rewrite_href_proto_rel (s : text) : text := replace_all (match_proto_rel (lit "href")) s.

(** ** The response handler [onProxyRes] of index.js *)

Abbreviation bytes := (list Byte.byte).

(** Header values as Node hands them over: a string, a list of strings
    (repeated headers such as set-cookie), or a number set by the proxy. *)
Inductive hval :=
| HStr (v : text)
| HList (vs : list text)
| HNum (n : nat).

Abbreviation headers := (list (text * hval)).

(** [proxyRes.headers[k]]: Node stores the upstream names in lower case. *)
Fixpoint hget (k : text) (hs : headers) : option hval :=
  match hs with
  | [] => None
  | (k', v) :: hs' => if bool_decide (k' = k) then Some v else hget k hs'
  end.

(** [res.getHeader(k)]: names are compared case-insensitively. *)
Fixpoint get_ci (k : text) (hs : headers) : option hval :=
  match hs with
  | [] => None
  | (k', v) :: hs' =>
      if bool_decide (toLowerCase k' = toLowerCase k) then Some v else get_ci k hs'
  end.

(** [res.setHeader(k, v)]: replaces the entry of the same name, else appends. *)
Fixpoint set_header (k : text) (v : hval) (hs : headers) : headers :=
  match hs with
  | [] => [(k, v)]
  | (k', v') :: hs' =>
      if bool_decide (toLowerCase k' = toLowerCase k) then (k, v) :: hs'
      else (k', v') :: set_header k v hs'
  end.

(** [Object.entries(h).forEach(([k, v]) => { if (skip(k.toLowerCase())) return; res.setHeader(k, v); })] *)
Definition copy_headers (skip : text -> bool) (up res : headers) : headers :=
  fold_left (fun acc kv => if skip (toLowerCase kv.1) then acc else set_header kv.1 kv.2 acc) up res.

(** JavaScript truthiness of a header value. *)
Definition truthy (v : option hval) : bool :=
  match v with
  | None | Some (HStr []) | Some (HNum 0) => false
  | Some _ => true
  end.

(** [(h || "").toLowerCase()]; [None] is the [TypeError] raised for a non-string. *)
Definition lower_header (v : option hval) : option text :=
  if truthy v then
    match v with Some (HStr s) => Some (toLowerCase s) | _ => None end
  else Some [].

(** The compression library and the UTF-8 conversions of [Buffer]. A
    decompressor returns [None] where the Node function throws. *)
Record Codecs := {
  gunzipSync : bytes -> option bytes;
  inflateSync : bytes -> option bytes;
  brotliDecompressSync : bytes -> option bytes;
  gzipSync : bytes -> bytes;
  deflateSync : bytes -> bytes;
  brotliCompressSync : bytes -> bytes;
  utf8_decode : bytes -> text;
  utf8_encode : text -> bytes
}.

Record upstream := {
  up_status : nat;
  up_headers : headers;
  up_body : bytes
}.

Inductive outcome :=
| Sent (status : nat) (hs : headers) (body : bytes)
| Piped.

Definition hdr (s : string) : text := lit s.

Definition status_or_200 (st : nat) : nat := if st =? 0 then 200 else st.

(** [ctype.includes(...)] for the five textual content types. *)
Definition is_textual (ctype : text) : bool :=
  contains (lit "text/html") ctype || contains (lit "javascript") ctype ||
  contains (lit "css") ctype || contains (lit "application/json") ctype ||
  contains (lit "text/plain") ctype.

(** The challenge test inlined in [onProxyRes] (index.js, line 187). *)
Definition isCF (status : nat) (bodyStr : text) : bool :=
  let lower := toLowerCase bodyStr in
  (status =? 503) || contains (lit "__cf_chl_rt_tk") lower ||
  contains (lit "cf-browser-verification") lower ||
  contains (lit "checking your browser before accessing") lower.

(** [isCloudflareChallengeStatus] of part_002. *)
Definition isCloudflareChallengeStatus (status : nat) (bodyStr : text) : bool :=
  if status =? 0 then false
  else if (status =? 503) || (status =? 429) then true
  else if bool_decide (bodyStr = []) then false
  else
    let s := toLowerCase bodyStr in
    contains (lit "__cf_chl_rt_tk") s || contains (lit "cf_chl_") s ||
    contains (lit "cf-browser-verification") s || contains (lit "ddos protection") s ||
    contains (lit "checking your browser before accessing") s.

Section Handler.

Variable Z : Codecs.

(** The decompression step with its [catch]: a failure keeps the raw buffer. *)
Definition decode_body (enc : text) (buffer : bytes) : bytes :=
  let attempt :=
    if bool_decide (enc = lit "gzip") then gunzipSync Z buffer
    else if bool_decide (enc = lit "deflate") then inflateSync Z buffer
    else if bool_decide (enc = lit "br") then brotliDecompressSync Z buffer
    else Some buffer in
  match attempt with Some d => d | None => buffer end.

Definition encode_body (enc : text) (b : bytes) : bytes :=
  if bool_decide (enc = lit "gzip") then gzipSync Z b
  else if bool_decide (enc = lit "deflate") then deflateSync Z b
  else if bool_decide (enc = lit "br") then brotliCompressSync Z b
  else b.

Definition skip_none (_ : text) : bool := false.
Definition skip_rewritten (lk : text) : bool :=
  bool_decide (lk = hdr "content-length") || bool_decide (lk = hdr "content-security-policy") ||
  bool_decide (lk = hdr "x-frame-options").
Definition skip_binary (lk : text) : bool := bool_decide (lk = hdr "content-length").

(** [onProxyRes] of the fallback proxy, starting from the headers [init]
    already on the client response. [Piped] is the outer [catch]. *)
Definition onProxyRes (up : upstream) (init : headers) : outcome :=
  let buffer := up_body up in
  match lower_header (hget (hdr "content-encoding") (up_headers up)) with
  | None => Piped
  | Some enc =>
      let decoded := decode_body enc buffer in
      match lower_header (hget (hdr "content-type") (up_headers up)) with
      | None => Piped
      | Some ctype =>
          if is_textual ctype then
            let bodyStr := utf8_decode Z decoded in
            if isCF (up_status up) bodyStr then
              let hs := copy_headers skip_none (up_headers up) init in
              let hs := if bool_decide (enc = []) then hs
                        else set_header (hdr "content-encoding") (HStr enc) hs in
              Sent (status_or_200 (up_status up)) hs buffer
            else
              let rewritten := rewriteText bodyStr in
              let outBuf := encode_body enc (utf8_encode Z rewritten) in
              let hs := copy_headers skip_rewritten (up_headers up) init in
              let hs := set_header (hdr "content-length") (HNum (length outBuf)) hs in
              let ce := hget (hdr "content-encoding") (up_headers up) in
              let hs := match ce with
                        | Some v => if truthy ce then set_header (hdr "content-encoding") v hs else hs
                        | None => hs
                        end in
              Sent (status_or_200 (up_status up)) hs outBuf
          else
            Sent (status_or_200 (up_status up)) (copy_headers skip_binary (up_headers up) init) buffer
      end
  end.

End Handler.

(** A concrete instance of the codec interface, used to evaluate examples:
    each compressed format is its payload behind a two-byte tag, and a
    buffer without the tag fails to decompress; text and bytes correspond
    one to one, which is UTF-8 on ASCII text. *)
Definition untag (t0 t1 : Byte.byte) (b : bytes) : option bytes :=
  match b with
  | x :: y :: r => if Byte.eqb x t0 && Byte.eqb y t1 then Some r else None
  | _ => None
  end.

Definition toy_codecs : Codecs := {|
  gunzipSync := untag Byte.x1f Byte.x8b;
  inflateSync := untag Byte.x78 Byte.x9c;
  brotliDecompressSync := untag Byte.xce Byte.xb2;
  gzipSync := fun b => Byte.x1f :: Byte.x8b :: b;
  deflateSync := fun b => Byte.x78 :: Byte.x9c :: b;
  brotliCompressSync := fun b => Byte.xce :: Byte.xb2 :: b;
  utf8_decode := map ascii_of_byte;
  utf8_encode := map byte_of_ascii
|}.

(** ** The fetch gateway of index.js *)

Section Decode.

Local Open Scope N_scope.

Definition hex_val (c : ascii) : option N :=
  let n := N_of_ascii c in
  if (48 <=? n) && (n <=? 57) then Some (n - 48)
  else if (65 <=? n) && (n <=? 70) then Some (n - 55)
  else if (97 <=? n) && (n <=? 102) then Some (n - 87)
  else None.

Definition pct_byte (s : text) : option (N * text) :=
  match s with
  | c0 :: h1 :: h2 :: r =>
      if Ascii.eqb c0 "%" then
        match hex_val h1, hex_val h2 with
        | Some a, Some b => Some (16 * a + b, r)
        | _, _ => None
        end
      else None
  | _ => None
  end.

(** The number of continuation bytes announced by a leading byte, with the
    payload bits of that byte. *)
Definition utf8_lead (b : N) : option (nat * N) :=
  if (192 <=? b) && (b <? 224) then Some (1%nat, b - 192)
  else if (224 <=? b) && (b <? 240) then Some (2%nat, b - 224)
  else if (240 <=? b) && (b <? 248) then Some (3%nat, b - 240)
  else None.

Fixpoint cont_bytes (n : nat) (s : text) : option (list N * text) :=
  match n with
  | O => Some ([], s)
  | S n' =>
      match pct_byte s with
      | Some (b, r) =>
          if b / 64 =? 2 then
            match cont_bytes n' r with
            | Some (bs, r') => Some (b :: bs, r')
            | None => None
            end
          else None
      | None => None
      end
  end.

(** Shortest form, no surrogate, at most U+10FFFF. *)
Definition utf8_ok (n : nat) (v : N) : bool :=
  match n with
  | 1%nat => 128 <=? v
  | 2%nat => (2048 <=? v) && negb ((55296 <=? v) && (v <=? 57343))
  | _ => (65536 <=? v) && (v <=? 1114111)
  end.

Fixpoint decode_n (fuel : nat) (s : text) : option (list N) :=
  match fuel with
  | O => Some []
  | S f =>
      match s with
      | [] => Some []
      | c :: s' =>
          if Ascii.eqb c "%" then
            match pct_byte s with
            | None => None
            | Some (b, r) =>
                if b <? 128 then option_map (cons b) (decode_n f r)
                else match utf8_lead b with
                     | None => None
                     | Some (n, v0) =>
                         match cont_bytes n r with
                         | None => None
                         | Some (cs, r') =>
                             let v := fold_left (fun acc c => acc * 64 + (c - 128)) cs v0 in
                             if utf8_ok n v then option_map (cons v) (decode_n f r') else None
                         end
                     end
            end
          else option_map (cons (N_of_ascii c)) (decode_n f s')
      end
  end.

End Decode.

(** [decodeURIComponent] (ECMAScript Decode with an empty reserved set) on
    Latin-1 input, producing code points; [None] is the [URIError]. *)
Definition decodeURIComponent (s : text) : option (list N) := decode_n (length s) s.

Record fresp := {
  f_status : nat;
  f_headers : headers;
  f_body : bytes
}.

(** The process state seen by the gateway: the [NodeCache] entries with
    their expiry times, the clock in milliseconds, and the log of outbound
    requests. *)
Record fstate := {
  fcache : gmap (list N) (fresp * N);
  fnow : N;
  fcalls : list (list N)
}.

Definition stdTTL_ms : N := 3600 * 1000.

(** [cache.get(k)]: an entry past its expiry time is deleted and missed. *)
Definition cache_get (k : list N) (st : fstate) : option fresp * fstate :=
  match fcache st !! k with
  | Some (v, t) =>
      if (t <? fnow st)%N then (None, {| fcache := delete k (fcache st); fnow := fnow st; fcalls := fcalls st |})
      else (Some v, st)
  | None => (None, st)
  end.

Definition cache_set (k : list N) (v : fresp) (st : fstate) : fstate :=
  {| fcache := <[k := (v, fnow st + stdTTL_ms)%N]> (fcache st); fnow := fnow st; fcalls := fcalls st |}.

Definition log_call (url : list N) (st : fstate) : fstate :=
  {| fcache := fcache st; fnow := fnow st; fcalls := fcalls st ++ [url] |}.

(** [(v || "").includes(needle)] for a header value: a string searches a
    substring, an array an equal element; [None] is the [TypeError] of a number. *)
Definition js_includes (v : option hval) (needle : text) : option bool :=
  if truthy v then
    match v with
    | Some (HStr s) => Some (contains needle s)
    | Some (HList l) => Some (existsb (fun x => bool_decide (x = needle)) l)
    | _ => None
    end
  else Some false.

(** The cache test of [backendFetch], evaluated left to right. *)
Definition cacheable (out : fresp) : option bool :=
  match js_includes (hget (hdr "content-type") (f_headers out)) (lit "image") with
  | None => None
  | Some true => Some true
  | Some false => js_includes (hget (hdr "cache-control") (f_headers out)) (lit "max-age")
  end.

Definition fetch_key (url : list N) : list N := map N_of_ascii (lit "fetch:") ++ url.

Definition ALLOWED_HOSTS : list text :=
  map lit ["orteil.dashnet.org"; "dashnet.org"; "ajax.googleapis.com"; "fonts.googleapis.com";
           "fonts.gstatic.com"; "cdn.jsdelivr.net"; "cdnjs.cloudflare.com"].

Definition host_allowed (h : list N) : bool :=
  existsb (fun a => bool_decide (h = map N_of_ascii a)) ALLOWED_HOSTS.

Definition body_of (s : string) : bytes := map byte_of_ascii (lit s).

Inductive fetch_outcome :=
| FStatus (code : nat) (hs : headers) (body : bytes)
| FUncaught.

(** [{ ...headers }] without the three deleted keys. *)
Definition strip_fetch_headers (hs : headers) : headers :=
  filter (fun kv => negb (bool_decide (kv.1 = hdr "content-security-policy") ||
                          bool_decide (kv.1 = hdr "x-frame-options") ||
                          bool_decide (kv.1 = hdr "set-cookie"))) hs.

Definition advance (t : N) (st : fstate) : fstate :=
  {| fcache := fcache st; fnow := t; fcalls := fcalls st |}.

Section Gateway.

(** [undiciRequest] with [throwOnError]: [None] is a thrown error. *)
Variable request : list N -> option fresp.
(** [new URL(url).hostname]: [None] is a thrown [TypeError]. *)
Variable url_hostname : list N -> option (list N).

Definition backendFetch (url : list N) (noCache : bool) (st : fstate) : option fresp * fstate :=
  let ck := fetch_key url in
  let '(cached, st) := if noCache then (None, st) else cache_get ck st in
  match cached with
  | Some v => (Some v, st)
  | None =>
      let st := log_call url st in
      match request url with
      | None => (None, st)
      | Some out =>
          if noCache then (Some out, st)
          else match cacheable out with
               | None => (None, st)
               | Some true => (Some out, cache_set ck out st)
               | Some false => (Some out, st)
               end
      end
  end.

(** The [/fetch] route: [raw] is [req.query.url], [init] the headers
    already on the response. The headers that Express's [send] adds are
    not modelled. *)
Definition fetch_handler (raw : option text) (init : headers) (st : fstate)
  : fetch_outcome * fstate :=
  match raw with
  | None | Some [] => (FStatus 400 init (body_of "missing url"), st)
  | Some r =>
      match decodeURIComponent r with
      | None => (FUncaught, st)
      | Some url =>
          match url_hostname url with
          | None => (FStatus 502 init (body_of "bad gateway"), st)
          | Some h =>
              if negb (host_allowed h) then (FStatus 403 init (body_of "host not allowed"), st)
              else match backendFetch url false st with
                   | (None, st') => (FStatus 502 init (body_of "bad gateway"), st')
                   | (Some out, st') =>
                       (FStatus (f_status out)
                          (copy_headers skip_none (strip_fetch_headers (f_headers out)) init)
                          (f_body out), st')
                   end
          end
      end
  end.

End Gateway.

(** A small URL reader used to evaluate examples: the host of an
    [http://] or [https://] URL, up to the first [/], [:], [?] or [#]. *)
Fixpoint host_part (u : list N) : list N :=
  match u with
  | [] => []
  | c :: u' => if existsb (N.eqb c) [47; 58; 63; 35]%N then [] else c :: host_part u'
  end.

Definition toy_hostname (u : list N) : option (list N) :=
  let https := map N_of_ascii (lit "https://") in
  let http := map N_of_ascii (lit "http://") in
  if bool_decide (take (length https) u = https) then Some (host_part (drop (length https) u))
  else if bool_decide (take (length http) u = http) then Some (host_part (drop (length http) u))
  else None.

(** A fixed upstream used to evaluate examples: every URL answers 200 with
    an image. *)
Definition toy_request (u : list N) : option fresp :=
  Some {| f_status := 200; f_headers := [(hdr "content-type", HStr (lit "image/png"))];
          f_body := body_of "PNG" |}.

(** ** The earlier revisions of the proxy (src/unnamed)

    Header-object operations used by these revisions: [delete h[k]]
    removes the property of that exact name, [h[k] = v] on a present
    property updates it in place, and [res.removeHeader(k)] removes the
    entry whatever the case of its name. *)

Definition delete_key (k : text) (hs : headers) : headers :=
  List.filter (fun kv => negb (bool_decide (kv.1 = k))) hs.

Fixpoint update_key (k : text) (v : hval) (hs : headers) : headers :=
  match hs with
  | [] => []
  | (k', v') :: hs' => if bool_decide (k' = k) then (k', v) :: hs' else (k', v') :: update_key k v hs'
  end.

Definition remove_header (k : text) (hs : headers) : headers :=
  List.filter (fun kv => negb (bool_decide (toLowerCase kv.1 = toLowerCase k))) hs.

(** [if (h && h.location) h.location = h.location.replace(re, ...)]: a
    location that is not a string has no [replace] method, the [TypeError]
    is [None]. *)
Definition rewrite_location (mt : matcher) (hs : headers) : option headers :=
  let v := hget (hdr "location") hs in
  if truthy v then
    match v with
    | Some (HStr l) => Some (update_key (hdr "location") (HStr (replace_all mt l)) hs)
    | _ => None
    end
  else Some hs.

(** The result of [onProxyRes] in the earlier revisions: a response
    written by the handler, the [pipe] of its [catch] fallback, or an
    exception thrown outside any [try], which rejects the handler's
    promise and leaves the response unanswered. *)
Inductive outcome_e :=
| SentE (status : nat) (hs : headers) (body : bytes)
| PipedE
| Unhandled.

(** *** part_000 *)

Definition proxyPath : text := lit "/cookieclicker".

(** [/https?:\/\/orteil\.dashnet\.org(\/?)/g] replaced by [proxyPath + "$1"]:
    the optional slash is taken when present and put back after the prefix. *)
Definition match_location_000 : matcher := fun s =>
  match first_prefix origin_pats s with
  | Some p =>
      match drop (length p) s with
      | c :: r => if Ascii.eqb c "/" then Some (p ++ [c], proxyPath ++ [c], r)
                  else Some (p, proxyPath, c :: r)
      | [] => Some (p, proxyPath, [])
      end
  | None => None
  end.

(** The two replacements of the body (part_000, lines 74-75). *)
Definition rewrite_body_000 (body : text) : text :=
  let body := replace_all (lit_rule origin_prefixed_pats proxyPath) body in
  replace_all (lit_rule origin_pats proxyPath) body.

(** *** part_001 *)

Definition injection : text :=
lit "
  <!-- proxied by your Railway proxy -->
  <script>
    // rewrite fetch/XHR targets in-page (best-effort)
    (function(){
      const base = " ++ dq ++
lit "/cookieclicker" ++ dq ++
lit ";
      // patch fetch
      const origFetch = window.fetch;
      window.fetch = function(input, init){
        try {
          const url = (typeof input === " ++ dq ++
lit "string" ++ dq ++
lit ") ? input : input.url;
          if (url && url.includes(" ++ dq ++
lit "orteil.dashnet.org" ++ dq ++
lit ")) {
            const newUrl = url.replace(/https?:\/\/orteil\.dashnet\.org/g, base);
            return origFetch.call(this, newUrl, init);
          }
        } catch(e){}
        return origFetch.call(this, input, init);
      };
    })();
  </script>
  ".

(** [rewriteHtml(body, proxyBase)] of part_001. *)
Definition rewriteHtml (body proxyBase : text) : text :=
  let s := replace_all (lit_rule origin_prefixed_pats proxyBase) body in
  let s := replace_all (lit_rule origin_pats proxyBase) s in
  let s := rewrite_cdn s in
  let s := strip_integrity s in
  let s := strip_crossorigin s in
  let s := rewrite_src_proto_rel s in
  let s := rewrite_href_proto_rel s in
  replace_first_ci head_close (injection ++ head_close) s.

(** *** part_002 *)

Definition safeScript : text :=
lit "
  <script>
    // Prevent scripts from sending the user off to the original domain by rewriting assignments
    (function(){
      const PROXY = " ++ dq ++
lit "/cookieclicker" ++ dq ++
lit ";
      const ORIG = " ++ dq ++
lit "https://orteil.dashnet.org" ++ dq ++
lit ";
      // Override location setters
      const setLocation = (dest) => {
        try {
          if (typeof dest === " ++ dq ++
lit "string" ++ dq ++
lit " && dest.includes(" ++ dq ++
lit "orteil.dashnet.org" ++ dq ++
lit ")) {
            dest = dest.replace(/https?:\/\/orteil\.dashnet\.org/g, PROXY);
          }
        } catch(e){}
        return dest;
      };
      const origAssign = window.location.assign;
      const origReplace = window.location.replace;
      Object.defineProperty(window.location, " ++ dq ++
lit "assign" ++ dq ++
lit ", {
        configurable: true,
        value: function(u){ return origAssign.call(this, setLocation(u)); }
      });
      Object.defineProperty(window.location, " ++ dq ++
lit "replace" ++ dq ++
lit ", {
        configurable: true,
        value: function(u){ return origReplace.call(this, setLocation(u)); }
      });
      const origOpen = window.open;
      window.open = function(u, n, opts){ return origOpen.call(this, setLocation(u), n, opts); };
    })();
  </script>
  ".

(** [rewriteText(bodyStr, proxyBase)] of part_002. *)
Definition rewriteText_002 (bodyStr proxyBase : text) : text :=
  let s := replace_all (lit_rule origin_prefixed_pats proxyBase) bodyStr in
  let s := replace_all (lit_rule origin_pats proxyBase) s in
  let s := replace_all (lit_rule dashnet_pats proxyBase) s in
  let s := rewrite_cdn s in
  let s := strip_integrity s in
  let s := strip_crossorigin s in
  if contains head_close s then replace_first_ci head_close (safeScript ++ head_close) s else s.

Section Revisions.

Variable Z : Codecs.

(** Decompression without a [catch]: [None] is the exception. *)
Definition decode_000 (encoding : text) (buffer : bytes) : option bytes :=
  if bool_decide (encoding = lit "gzip") then gunzipSync Z buffer
  else if bool_decide (encoding = lit "deflate") then inflateSync Z buffer
  else if bool_decide (encoding = lit "br") || bool_decide (encoding = lit "brotli") then
    brotliDecompressSync Z buffer
  else Some buffer.

Definition encode_000 (encoding : text) (b : bytes) : bytes :=
  if bool_decide (encoding = lit "gzip") then gzipSync Z b
  else if bool_decide (encoding = lit "deflate") then deflateSync Z b
  else if bool_decide (encoding = lit "br") || bool_decide (encoding = lit "brotli") then
    brotliCompressSync Z b
  else b.

(** [onProxyRes] of part_000. The location rewrite and the content-type
    read run outside the [try] of the [end] listener. *)
Definition onProxyRes_000 (up : upstream) (init : headers) : outcome_e :=
  match rewrite_location match_location_000 (up_headers up) with
  | None => Unhandled
  | Some hs0 =>
      let hs0 := delete_key (hdr "x-frame-options") (delete_key (hdr "content-security-policy") hs0) in
      match lower_header (hget (hdr "content-type") hs0) with
      | None => Unhandled
      | Some contentType =>
          if negb (contains (lit "text/html") contentType) then
            SentE (status_or_200 (up_status up)) (copy_headers skip_binary hs0 init) (up_body up)
          else
            match lower_header (hget (hdr "content-encoding") hs0) with
            | None => PipedE
            | Some encoding =>
                match decode_000 encoding (up_body up) with
                | None => PipedE
                | Some buffer =>
                    let body := rewrite_body_000 (utf8_decode Z buffer) in
                    let outBuffer := encode_000 encoding (utf8_encode Z body) in
                    let hs := copy_headers skip_rewritten hs0 init in
                    let hs := set_header (hdr "content-length") (HNum (length outBuffer)) hs in
                    let ce := hget (hdr "content-encoding") hs0 in
                    let hs := match ce with
                              | Some v => if truthy ce then set_header (hdr "content-encoding") v hs
                                          else remove_header (hdr "content-encoding") hs
                              | None => remove_header (hdr "content-encoding") hs
                              end in
                    SentE (status_or_200 (up_status up)) hs outBuffer
                end
            end
      end
  end.

Definition decode_001 (enc : text) (buffer : bytes) : option bytes :=
  if bool_decide (enc = lit "gzip") then gunzipSync Z buffer
  else if bool_decide (enc = lit "deflate") then inflateSync Z buffer
  else if bool_decide (enc = lit "br") then brotliDecompressSync Z buffer
  else Some buffer.

(** [onProxyRes] of part_001. *)
Definition onProxyRes_001 (up : upstream) (init : headers) : outcome_e :=
  match rewrite_location (lit_rule origin_pats PROXY_PREFIX) (up_headers up) with
  | None => Unhandled
  | Some hs0 =>
      let hs0 := delete_key (hdr "x-xss-protection")
                   (delete_key (hdr "x-frame-options") (delete_key (hdr "content-security-policy") hs0)) in
      match lower_header (hget (hdr "content-type") hs0) with
      | None => Unhandled
      | Some ctype =>
          if negb (contains (lit "text/html") ctype) then
            SentE (status_or_200 (up_status up)) (copy_headers skip_binary hs0 init) (up_body up)
          else
            match lower_header (hget (hdr "content-encoding") hs0) with
            | None => PipedE
            | Some enc =>
                match decode_001 enc (up_body up) with
                | None => PipedE
                | Some buffer =>
                    let body := rewriteHtml (utf8_decode Z buffer) PROXY_PREFIX in
                    let out := encode_body Z enc (utf8_encode Z body) in
                    let hs := copy_headers skip_rewritten hs0 init in
                    let hs := set_header (hdr "content-length") (HNum (length out)) hs in
                    let ce := hget (hdr "content-encoding") hs0 in
                    let hs := match ce with
                              | Some v => if truthy ce then set_header (hdr "content-encoding") v hs else hs
                              | None => hs
                              end in
                    SentE (status_or_200 (up_status up)) hs out
                end
            end
      end
  end.

(** [onProxyRes] of part_002: the challenge test runs before the
    content-type test, on the body decoded with the [catch] fallback. *)
Definition onProxyRes_002 (up : upstream) (init : headers) : outcome :=
  let buffer := up_body up in
  match lower_header (hget (hdr "content-encoding") (up_headers up)) with
  | None => Piped
  | Some contentEncoding =>
      match lower_header (hget (hdr "content-type") (up_headers up)) with
      | None => Piped
      | Some contentType =>
          let decoded := decode_body Z contentEncoding buffer in
          let decodedStr := utf8_decode Z decoded in
          if isCloudflareChallengeStatus (up_status up) decodedStr then
            let hs := copy_headers skip_none (up_headers up) init in
            if bool_decide (contentEncoding = lit "gzip") then
              Sent (status_or_200 (up_status up))
                   (set_header (hdr "content-encoding") (HStr (lit "gzip")) hs) buffer
            else if bool_decide (contentEncoding = lit "br") then
              Sent (status_or_200 (up_status up))
                   (set_header (hdr "content-encoding") (HStr (lit "br")) hs) buffer
            else Sent (status_or_200 (up_status up)) hs decoded
          else if is_textual contentType then
            let rewritten := rewriteText_002 decodedStr PROXY_PREFIX in
            let outBuffer := encode_body Z contentEncoding (utf8_encode Z rewritten) in
            let hs := copy_headers skip_rewritten (up_headers up) init in
            let hs := set_header (hdr "content-length") (HNum (length outBuffer)) hs in
            let ce := hget (hdr "content-encoding") (up_headers up) in
            let hs := match ce with
                      | Some v => if truthy ce then set_header (hdr "content-encoding") v hs else hs
                      | None => hs
                      end in
            Sent (status_or_200 (up_status up)) hs outBuffer
          else
            Sent (status_or_200 (up_status up)) (copy_headers skip_binary (up_headers up) init) buffer
      end
  end.

End Revisions.

Section Gateway001.

Variable request : list N -> option fresp.

(** [backendFetch] of part_001, whose cache test reads
    [!noCache && ctype.includes(image) || cc.includes(max-age)], that is
    [(!noCache && ...) || ...]. *)
Definition backendFetch_001 (url : list N) (noCache : bool) (st : fstate) : option fresp * fstate :=
  let ck := fetch_key url in
  let '(cached, st) := if noCache then (None, st) else cache_get ck st in
  match cached with
  | Some v => (Some v, st)
  | None =>
      let st := log_call url st in
      match request url with
      | None => (None, st)
      | Some out =>
          let left := if noCache then Some false
                      else js_includes (hget (hdr "content-type") (f_headers out)) (lit "image") in
          let store := match left with
                       | None => None
                       | Some true => Some true
                       | Some false => js_includes (hget (hdr "cache-control") (f_headers out)) (lit "max-age")
                       end in
          match store with
          | None => (None, st)
          | Some true => (Some out, cache_set ck out st)
          | Some false => (Some out, st)
          end
      end
  end.

End Gateway001.

(** Header names in lower case, as Node and undici hand them over. *)
Definition lower_names (hs : headers) : Prop := Forall (fun kv => toLowerCase kv.1 = kv.1) hs.


(** ** Occurrences of a literal in a text *)

Section Occurrences.

Lemma prefixb_spec (p s : text) : prefixb p s = true <-> p `prefix_of` s.
Proof.
  revert s; induction p as [|a p IH]; intros s.
  - split; [intros _; by exists s | done].
  - destruct s as [|b s]; simpl.
    + split; [done|]. intros [k Hk]. discriminate.
    + rewrite andb_true_iff, Ascii.eqb_eq, IH. split.
      * intros [-> [k ->]]. by exists k.
      * intros [k Hk]. injection Hk as -> ->. split; [done|]. by exists k.
Qed.

Lemma contains_spec (q s : text) : contains q s = true <-> exists u v, s = u ++ q ++ v.
Proof.
  induction s as [|c s IH]; simpl.
  - rewrite orb_false_r, prefixb_spec. split.
    + intros [k Hk]. by exists [], k.
    + intros (u & v & H). destruct u; [|discriminate]. by exists v.
  - rewrite orb_true_iff, prefixb_spec, IH. split.
    + intros [[k Hk] | (u & v & ->)].
      * exists [], k. by rewrite Hk.
      * by exists (c :: u), v.
    + intros (u & v & H). destruct u as [|d u].
      * left. exists v. by rewrite H.
      * right. injection H as -> ->. eauto.
Qed.

Lemma contains_app_l (q a b : text) : contains q a = true -> contains q (a ++ b) = true.
Proof.
  rewrite !contains_spec. intros (u & v & ->). exists u, (v ++ b).
  by rewrite <- !app_assoc.
Qed.

Lemma contains_app_r (q a b : text) : contains q b = true -> contains q (a ++ b) = true.
Proof.
  rewrite !contains_spec. intros (u & v & ->). exists (a ++ u), v.
  by rewrite <- !app_assoc.
Qed.

Lemma contains_trans (q x s : text) :
  contains q x = true -> contains x s = true -> contains q s = true.
Proof.
  rewrite !contains_spec. intros (u & v & ->) (u' & v' & ->).
  exists (u' ++ u), (v ++ v'). by rewrite <- !app_assoc.
Qed.

Lemma prefixb_contains (p t : text) : prefixb p t = true -> contains p t = true.
Proof.
  rewrite prefixb_spec, contains_spec. intros [k ->]. by exists [], k.
Qed.

Lemma suffix_contains (q t s : text) :
  t `suffix_of` s -> contains q t = true -> contains q s = true.
Proof. intros [k ->]. apply contains_app_r. Qed.

Lemma contains_nil (s : text) : contains [] s = true.
Proof. destruct s; reflexivity. Qed.

(** An occurrence in [a ++ w] lies in [a], lies in [w], or starts in [a]
    and continues with a proper suffix [drop k q] at the head of [w]. *)
Lemma contains_app_cases (q a w : text) :
  contains q (a ++ w) = true ->
  contains q a = true \/ contains q w = true \/
  exists k, 0 < k < length q /\ drop k q `prefix_of` w.
Proof.
  rewrite contains_spec. intros (u & v & H).
  apply app_eq_inv in H as [(k & Ha & Hk) | (k & Hu & Hw)].
  - (* the occurrence starts inside [a] *)
    apply app_eq_inv in Hk as [(j & Hq & Hw) | (j & Hkq & Hv)].
    + destruct k as [|x k].
      * right; left. rewrite app_nil_l in Hq. subst j.
        apply contains_spec. exists [], v. done.
      * destruct j as [|y j].
        { left. rewrite app_nil_r in Hq. subst q.
          apply contains_spec. exists u, []. by rewrite Ha, app_nil_r. }
        right; right. exists (length (x :: k)). split.
        { rewrite Hq, length_app. simpl. lia. }
        rewrite Hq, drop_app_length. exists v. done.
    + left. apply contains_spec. exists u, j. by rewrite Ha, Hkq.
  - right; left. apply contains_spec. by exists k, v.
Qed.

(** An occurrence in [r ++ b] lies in [b] or starts at some position of [r]. *)
Lemma contains_app_start (q r b : text) :
  contains q (r ++ b) = true ->
  contains q b = true \/ exists j, j < length r /\ q `prefix_of` drop j r ++ b.
Proof.
  rewrite contains_spec. intros (u & v & H).
  apply app_eq_inv in H as [(k & Hr & Hk) | (k & Hu & Hb)].
  - destruct k as [|x k].
    + left. rewrite app_nil_l in Hk. apply contains_spec. exists [], v. by rewrite Hk.
    + right. exists (length u). split.
      * rewrite Hr, length_app. simpl. lia.
      * rewrite Hr, drop_app_length. exists v. by rewrite Hk.
  - left. apply contains_spec. exists k, v. done.
Qed.

Lemma compat_of_prefixes (x y z : text) :
  x `prefix_of` z -> y `prefix_of` z -> compat x y = true.
Proof.
  intros Hx Hy. unfold compat. rewrite orb_true_iff, !prefixb_spec.
  by apply (prefix_weak_total _ _ z).
Qed.

Lemma in_seq_iff (k start len : nat) : In k (seq start len) <-> start <= k < start + len.
Proof. apply in_seq. Qed.

(** A replacement [r] with [no_overlap q r] cannot take part in an occurrence of [q]. *)
Lemma split_static (q r a b : text) :
  no_overlap q r = true ->
  contains q (a ++ r ++ b) = contains q a || contains q b.
Proof.
  unfold no_overlap. rewrite andb_true_iff, !forallb_forall. intros [HA HB].
  destruct (contains q a) eqn:Ea; [by rewrite contains_app_l|].
  destruct (contains q b) eqn:Eb.
  { rewrite orb_true_r. by apply contains_app_r, contains_app_r. }
  simpl. apply not_true_is_false. intros H.
  destruct q as [|q0 q'] eqn:Eq; [by rewrite contains_nil in Ea|]. rewrite <- Eq in *.
  assert (Hq : 0 < length q) by (rewrite Eq; simpl; lia).
  apply contains_app_cases in H as [H | [H | (k & Hk & Hp)]]; [congruence | |].
  - apply contains_app_start in H as [H | (j & Hj & Hp)]; [congruence|].
    destruct j as [|j].
    + rewrite drop_0 in Hp.
      assert (Hc : compat (drop 0 q) r = true).
      { rewrite drop_0. apply (compat_of_prefixes _ _ (r ++ b)); [done|]. by exists b. }
      specialize (HA 0). rewrite Hc in HA. simpl in HA.
      assert (Hin : In 0 (seq 0 (length q))) by (apply in_seq; lia).
      specialize (HA Hin). discriminate.
    + assert (Hc : compat (drop (S j) r) q = true).
      { apply (compat_of_prefixes _ _ (drop (S j) r ++ b)); [by exists b | done]. }
      assert (Hin : In (S j) (seq 1 (length r - 1))) by (apply in_seq; lia).
      specialize (HB _ Hin). rewrite Hc in HB. discriminate.
  - assert (Hc : compat (drop k q) r = true).
    { apply (compat_of_prefixes _ _ (r ++ b)); [done | by exists b]. }
    assert (Hin : In k (seq 0 (length q))) by (apply in_seq; lia).
    specialize (HA _ Hin). rewrite Hc in HA. discriminate.
Qed.

End Occurrences.

Section EncodedReplacement.






End EncodedReplacement.

(** ** Global replacement: unfolding, identity and absence of a literal *)

Section ReplaceAll.

Variable mt : matcher.
Hypothesis Hwf : matcher_wf mt.

Lemma replace_all_n_fuel (n1 n2 : nat) (s : text) :
  length s <= n1 -> length s <= n2 -> replace_all_n n1 mt s = replace_all_n n2 mt s.
Proof.
  revert n2 s. induction n1 as [|n1 IH]; intros n2 s H1 H2.
  - destruct s; [|simpl in H1; lia]. by destruct n2.
  - destruct s as [|c s]; [by destruct n2|].
    destruct n2 as [|n2]; [simpl in H2; lia|]. simpl.
    destruct (mt (c :: s)) as [[[m r] rest]|] eqn:E.
    + f_equal. apply Hwf in E as [Hs Hm].
      destruct m as [|x m]; [done|].
      assert (length rest <= length s).
      { simpl in Hs. injection Hs as _ ->. rewrite length_app. lia. }
      apply IH; simpl in *; lia.
    + f_equal. apply IH; simpl in *; lia.
Qed.


Lemma replace_all_cons (c : ascii) (s : text) :
  replace_all mt (c :: s) =
  match mt (c :: s) with
  | Some (_, r, rest) => r ++ replace_all mt rest
  | None => c :: replace_all mt s
  end.
Proof.
  unfold replace_all at 1. simpl.
  destruct (mt (c :: s)) as [[[m r] rest]|] eqn:E.
  - f_equal. apply Hwf in E as [Hs Hm].
    destruct m as [|x m]; [done|].
    assert (length rest <= length s).
    { simpl in Hs. injection Hs as _ ->. rewrite length_app. lia. }
    apply replace_all_n_fuel; lia.
  - reflexivity.
Qed.

Lemma suffix_cons_of (t : text) (c : ascii) (s : text) :
  t `suffix_of` s -> t `suffix_of` c :: s.
Proof. intros [k ->]. by exists (c :: k). Qed.


Lemma replace_all_id (s : text) :
  (forall t, t `suffix_of` s -> mt t = None) -> replace_all mt s = s.
Proof.
  induction s as [|c s IH]; intros H; [done|].
  rewrite replace_all_cons, (H (c :: s)) by (by exists []).
  f_equal. apply IH. intros t Ht. apply H. by apply suffix_cons_of.
Qed.



End ReplaceAll.

(** A matcher that fails at every position leaves the text unchanged. *)
Lemma replace_all_n_id (mt : matcher) (n : nat) (s : text) :
  (forall t, t `suffix_of` s -> mt t = None) -> replace_all_n n mt s = s.
Proof.
  revert s; induction n as [|n IH]; intros s H; [done|].
  destruct s as [|c s]; [done|]. simpl.
  rewrite (H (c :: s)) by (by exists []).
  f_equal. apply IH. intros t Ht. apply H. by apply suffix_cons_of.
Qed.

Lemma replace_all_nomatch (mt : matcher) (s : text) :
  (forall t, t `suffix_of` s -> mt t = None) -> replace_all mt s = s.
Proof. apply replace_all_n_id. Qed.

(** ** The rules of the Content Rewriter *)

Section Rules.

Lemma prefix_drop (p s : text) : p `prefix_of` s -> s = p ++ drop (length p) s.
Proof. intros [k ->]. by rewrite drop_app_length. Qed.

Lemma first_prefix_some (ps : list text) (s p : text) :
  first_prefix ps s = Some p -> In p ps /\ p `prefix_of` s.
Proof.
  induction ps as [|p0 ps IH]; simpl; [discriminate|].
  destruct (prefixb p0 s) eqn:E.
  - intros [= <-]. split; [by left | by apply prefixb_spec].
  - intros H. destruct (IH H). split; [by right | done].
Qed.


Lemma lit_rule_wf (ps : list text) (rep : text) :
  Forall (fun p => p <> []) ps -> matcher_wf (lit_rule ps rep).
Proof.
  intros Hne s m r rest. unfold lit_rule.
  destruct (first_prefix ps s) as [p|] eqn:E; [|discriminate].
  intros H. injection H as Hm _ Hr. subst m rest.
  apply first_prefix_some in E as [Hin Hp].
  split; [by apply prefix_drop|]. rewrite List.Forall_forall in Hne. by apply Hne.
Qed.





End Rules.

(** ** The CDN rule *)

Section Cdn.



Lemma match_scheme_some (s sch r : text) :
  match_scheme s = Some (sch, r) ->
  (sch = lit "https://" \/ sch = lit "http://") /\ s = sch ++ r.
Proof.
  unfold match_scheme.
  destruct (prefixb (lit "https://") s) eqn:E1.
  { intros [= <- <-]. split; [by left|]. apply prefixb_spec in E1.
    by apply (prefix_drop (lit "https://")). }
  destruct (prefixb (lit "http://") s) eqn:E2; [|discriminate].
  intros [= <- <-]. split; [by right|]. apply prefixb_spec in E2.
  by apply (prefix_drop (lit "http://")).
Qed.










End Cdn.

(** ** Attribute stripping and the injection of the safety script *)

Section Injection.

Lemma match_attr_absent (name s : text) :
  contains (name ++ lit "=" ++ dq) s = false ->
  forall t, t `suffix_of` s -> match_attr name t = None.
Proof.
  intros Hs [|c r] Ht; [done|]. unfold match_attr.
  destruct (is_space c && prefixb (name ++ lit "=" ++ dq) r) eqn:E; [|done].
  apply andb_prop in E as [_ E].
  assert (Hr : r `suffix_of` s) by (destruct Ht as [k ->]; exists (k ++ [c]); by rewrite <- app_assoc).
  rewrite (suffix_contains _ r s Hr (prefixb_contains _ _ E)) in Hs. discriminate.
Qed.

Lemma strip_attr_id (name s : text) :
  contains (name ++ lit "=" ++ dq) s = false -> replace_all (match_attr name) s = s.
Proof. intros Hs. apply replace_all_nomatch. by apply match_attr_absent. Qed.

Lemma prefixb_ci (p s : text) : prefixb p s = true -> prefix_ci p s = true.
Proof.
  revert s; induction p as [|a p IH]; intros [|b s]; simpl; try done.
  intros H. apply andb_prop in H as [Hab H]. apply Ascii.eqb_eq in Hab. subst b.
  rewrite Ascii.eqb_refl. simpl. by apply IH.
Qed.

Lemma prefix_ci_length (p s : text) : prefix_ci p s = true -> length p <= length s.
Proof.
  revert s; induction p as [|a p IH]; intros [|b s]; simpl; try (done || lia).
  intros H. apply andb_prop in H as [_ H]. apply IH in H. lia.
Qed.

(** [replace_first_ci] leaves the text alone or splices [rep] over the first match. *)
Lemma replace_first_ci_cases (p rep s : text) :
  replace_first_ci p rep s = s \/
  exists a b, s = a ++ b /\ prefix_ci p b = true /\
              replace_first_ci p rep s = a ++ rep ++ drop (length p) b.
Proof.
  induction s as [|c s IH]; [by left|]. simpl.
  destruct (prefix_ci p (c :: s)) eqn:E.
  - right. by exists [], (c :: s).
  - destruct IH as [-> | (a & b & -> & Hb & ->)]; [by left|].
    right. by exists (c :: a), b.
Qed.

Lemma replace_first_ci_found (p rep s : text) :
  p <> [] -> contains p s = true ->
  exists a b, s = a ++ b /\ prefix_ci p b = true /\
              replace_first_ci p rep s = a ++ rep ++ drop (length p) b.
Proof.
  intros Hp. induction s as [|c s IH]; simpl.
  - by destruct p.
  - destruct (prefix_ci p (c :: s)) eqn:E.
    + intros _. by exists [], (c :: s).
    + intros H. destruct (prefixb p (c :: s)) eqn:Ep.
      { by rewrite (prefixb_ci _ _ Ep) in E. }
      destruct (IH H) as (a & b & -> & Hb & ->). by exists (c :: a), b.
Qed.

Lemma contains_drop (q b : text) (n : nat) : contains q (drop n b) = true -> contains q b = true.
Proof. intros H. rewrite <- (take_drop n b). by apply contains_app_r. Qed.

(** The injection keeps absent any literal that the injected text cannot help form. *)
Lemma inject_preserve (q s : text) :
  no_overlap q (safetyScript ++ head_close) = true ->
  contains q s = false -> contains q (inject_safety s) = false.
Proof.
  intros Hq Hs. unfold inject_safety. destruct (contains head_close s); [|done].
  destruct (replace_first_ci_cases head_close (safetyScript ++ head_close) s)
    as [-> | (a & b & -> & _ & ->)]; [done|].
  rewrite split_static by done. apply orb_false_iff. split.
  - destruct (contains q a) eqn:E; [|done]. rewrite <- Hs. symmetry. by apply contains_app_l.
  - destruct (contains q (drop (length head_close) b)) eqn:E; [|done].
    rewrite <- Hs. symmetry. apply contains_app_r. by apply (contains_drop _ _ (length head_close)).
Qed.

Lemma inject_length (s : text) :
  contains head_close s = true ->
  length (inject_safety s) = length s + length safetyScript.
Proof.
  intros H. unfold inject_safety. rewrite H.
  destruct (replace_first_ci_found head_close (safetyScript ++ head_close) s ltac:(discriminate) H)
    as (a & b & -> & Hb & ->).
  apply prefix_ci_length in Hb. rewrite !length_app, length_drop. lia.
Qed.

Lemma inject_head (s : text) :
  contains head_close s = true -> contains head_close (inject_safety s) = true.
Proof.
  intros H. unfold inject_safety. rewrite H.
  destruct (replace_first_ci_found head_close (safetyScript ++ head_close) s ltac:(discriminate) H)
    as (a & b & -> & Hb & ->).
  apply contains_app_r. rewrite <- app_assoc. apply contains_app_r, prefixb_contains.
  apply prefixb_spec. by eexists.
Qed.

Lemma inject_absent (s : text) : contains head_close s = false -> inject_safety s = s.
Proof. unfold inject_safety. by intros ->. Qed.

End Injection.

(** ** The whole rewriter *)

Section Pipeline.

Lemma pats_nonempty :
  Forall (fun p => p <> []) origin_prefixed_pats /\ Forall (fun p => p <> []) origin_pats /\
  Forall (fun p => p <> []) dashnet_pats.
Proof. repeat split; repeat constructor; discriminate. Qed.

Lemma pats_scheme :
  Forall (fun p => contains scheme_sep p = true) origin_prefixed_pats /\
  Forall (fun p => contains scheme_sep p = true) origin_pats /\
  Forall (fun p => contains scheme_sep p = true) dashnet_pats.
Proof. repeat split; repeat constructor; vm_compute; reflexivity. Qed.

(** The overlap conditions of the literals, decided by evaluation. *)
Lemma literal_overlaps :
  Forall (fun q => no_overlap q PROXY_PREFIX = true /\ cdn_safe q = true /\
                   no_overlap q (safetyScript ++ head_close) = true)
    [origin_https; origin_http; integrity_open; crossorigin_open] /\
  no_overlap scheme_sep (safetyScript ++ head_close) = true.
Proof. split; [repeat constructor|]; vm_compute; reflexivity. Qed.


Lemma occurs_through (q t s : text) :
  contains q t = true -> t `suffix_of` s -> contains q s = true.
Proof. intros H Ht. by apply (suffix_contains q t s). Qed.

Lemma lit_rule_plain (ps : list text) (rep s : text) :
  Forall (fun p => contains scheme_sep p = true) ps -> contains scheme_sep s = false ->
  replace_all (lit_rule ps rep) s = s.
Proof.
  intros Hps Hs. apply replace_all_nomatch. intros t Ht. unfold lit_rule.
  destruct (first_prefix ps t) as [p|] eqn:E; [|done].
  apply first_prefix_some in E as [Hin [k ->]].
  rewrite List.Forall_forall in Hps.
  rewrite (occurs_through scheme_sep (p ++ k) s) in Hs; [discriminate | | done].
  by apply contains_app_l, Hps.
Qed.

Lemma cdn_plain (s : text) : contains scheme_sep s = false -> rewrite_cdn s = s.
Proof.
  intros Hs. apply replace_all_nomatch. intros t Ht.
  destruct (match_cdn t) as [[[m r] rest]|] eqn:E; [|done].
  unfold match_cdn in E. destruct (match_scheme t) as [[sch r1]|] eqn:E1; [|discriminate].
  apply match_scheme_some in E1 as [Hsch ->].
  assert (Hc : contains scheme_sep sch = true) by (destruct Hsch as [-> | ->]; reflexivity).
  rewrite (occurs_through scheme_sep (sch ++ r1) s) in Hs; [discriminate | | done].
  by apply contains_app_l.
Qed.

(** Without a scheme separator and without the two attributes, only the
    injection of the safety script can change the text. *)
Lemma rewriteText_plain (s : text) :
  contains scheme_sep s = false -> contains integrity_open s = false ->
  contains crossorigin_open s = false -> rewriteText s = inject_safety s.
Proof.
  intros Hs Hi Hc. destruct pats_scheme as (H1 & H2 & H3). unfold rewriteText.
  unfold rewrite_origin_prefixed, rewrite_origin, rewrite_dashnet.
  rewrite (lit_rule_plain origin_prefixed_pats _ s) by done.
  rewrite (lit_rule_plain origin_pats _ s) by done.
  rewrite (lit_rule_plain dashnet_pats _ s) by done.
  rewrite (cdn_plain s) by done.
  unfold strip_integrity, strip_crossorigin. by rewrite !(strip_attr_id _ s).
Qed.


End Pipeline.

(** ** Header bookkeeping *)

Section Headers.

Lemma get_ci_set (k k' : text) (v : hval) (hs : headers) :
  get_ci k (set_header k' v hs) =
  if bool_decide (toLowerCase k' = toLowerCase k) then Some v else get_ci k hs.
Proof.
  induction hs as [|[k0 v0] hs IH]; simpl; [done|].
  destruct (bool_decide (toLowerCase k0 = toLowerCase k')) eqn:E0; simpl.
  - apply bool_decide_eq_true in E0.
    destruct (bool_decide (toLowerCase k' = toLowerCase k)) eqn:E1; [done|].
    apply bool_decide_eq_false in E1.
    rewrite bool_decide_false by congruence. done.
  - apply bool_decide_eq_false in E0. rewrite IH.
    destruct (bool_decide (toLowerCase k0 = toLowerCase k)) eqn:E1; [|done].
    apply bool_decide_eq_true in E1.
    rewrite bool_decide_false by congruence. done.
Qed.

Lemma get_ci_app (k : text) (l1 l2 : headers) :
  get_ci k (l1 ++ l2) = match get_ci k l1 with Some v => Some v | None => get_ci k l2 end.
Proof.
  induction l1 as [|[k0 v0] l1 IH]; simpl; [done|].
  by destruct (bool_decide (toLowerCase k0 = toLowerCase k)).
Qed.

(** After copying, a name takes the value of its last copied occurrence,
    and keeps its earlier value when no copied header has that name. *)
Lemma get_ci_copy (skip : text -> bool) (k : text) (up res : headers) :
  get_ci k (copy_headers skip up res) =
  match get_ci k (rev (List.filter (fun kv => negb (skip (toLowerCase kv.1))) up)) with
  | Some v => Some v
  | None => get_ci k res
  end.
Proof.
  unfold copy_headers. revert res.
  induction up as [|[k0 v0] up IH]; intros res; simpl; [done|].
  rewrite IH. destruct (skip (toLowerCase k0)) eqn:E; simpl; [done|].
  rewrite get_ci_app. destruct (get_ci k (rev _)); [done|]. simpl.
  rewrite get_ci_set. by destruct (bool_decide (toLowerCase k0 = toLowerCase k)).
Qed.

Lemma filter_keep_all (up : headers) :
  List.filter (fun kv => negb (skip_none (toLowerCase kv.1))) up = up.
Proof. induction up as [|kv up IH]; [done|]. cbn [List.filter]. by f_equal. Qed.

End Headers.

(** ** More on global replacement *)

Lemma replace_all_match (mt : matcher) (s m r rest : text) :
  matcher_wf mt -> mt s = Some (m, r, rest) -> replace_all mt s = r ++ replace_all mt rest.
Proof.
  intros Hwf E. destruct s as [|c s].
  - apply Hwf in E as [Hs Hm]. destruct m; [done | discriminate].
  - by rewrite (replace_all_cons mt Hwf), E.
Qed.

Lemma lazy_to_quote_spec (s g rest : text) (q : ascii) :
  lazy_to_quote s = Some (g, q, rest) -> s = g ++ q :: rest.
Proof.
  revert g; induction s as [|c s IH]; intros g; simpl; [discriminate|].
  destruct (is_quote c); [by intros [= <- <- <-]|].
  destruct (is_line_term c); [discriminate|].
  destruct (lazy_to_quote s) as [[[g' q'] r']|] eqn:E; [|discriminate].
  intros [= <- -> ->]. simpl. f_equal. by apply IH.
Qed.

Lemma lazy_to_quote_plain (x post : text) (q : ascii) :
  Forall (fun c => is_quote c = false /\ is_line_term c = false) x -> is_quote q = true ->
  lazy_to_quote (x ++ q :: post) = Some (x, q, post).
Proof.
  intros Hx Hq. induction Hx as [|c x [Hc1 Hc2] Hx IH]; simpl.
  - by rewrite Hq.
  - by rewrite Hc1, Hc2, IH.
Qed.

Lemma match_proto_rel_wf (name : text) : matcher_wf (match_proto_rel name).
Proof.
  intros s m r rest. unfold match_proto_rel.
  destruct (prefixb (name ++ lit "=") s) eqn:E1; [|discriminate].
  apply prefixb_spec, prefix_drop in E1. rewrite length_app in E1.
  change (length (lit "=")) with 1 in E1.
  destruct (drop (length name + 1) s) as [|q0 r0] eqn:E2; [discriminate|].
  destruct (is_quote q0 && prefixb (lit "//") r0) eqn:E3; [|discriminate].
  apply andb_prop in E3 as [_ E3]. apply prefixb_spec, prefix_drop in E3.
  change (length (lit "//")) with 2 in E3.
  destruct (lazy_to_quote (drop 2 r0)) as [[[g1 q1] r1]|] eqn:E4; [|discriminate].
  apply lazy_to_quote_spec in E4. intros [= <- _ <-].
  split.
  - rewrite E1, E3, E4. rewrite <- !app_assoc. simpl. by rewrite <- !app_assoc.
  - intros H. apply (f_equal length) in H. rewrite !length_app in H. simpl in H. lia.
Qed.

(** ** Facts about the handler *)

Lemma decode_body_fail (Z : Codecs) (buffer : bytes) (e : text) :
  (e = lit "gzip" /\ gunzipSync Z buffer = None) \/
  (e = lit "deflate" /\ inflateSync Z buffer = None) \/
  (e = lit "br" /\ brotliDecompressSync Z buffer = None) ->
  decode_body Z e buffer = buffer.
Proof.
  unfold decode_body. intros [[-> H] | [[-> H] | [-> H]]].
  - by rewrite bool_decide_true, H.
  - rewrite bool_decide_false by (intros Heq; discriminate Heq).
    by rewrite bool_decide_true, H.
  - rewrite bool_decide_false by (intros Heq; discriminate Heq).
    rewrite bool_decide_false by (intros Heq; discriminate Heq).
    by rewrite bool_decide_true, H.
Qed.

Lemma ce_ne_cl : toLowerCase (hdr "content-encoding") <> toLowerCase (hdr "content-length").
Proof. vm_compute. intros Heq. discriminate Heq. Qed.

(** The headers that follow the content length on the rewritten path leave it alone. *)
Lemma content_length_kept (up : upstream) (hs : headers) (n : nat) :
  get_ci (hdr "content-length")
    (let ce := hget (hdr "content-encoding") (up_headers up) in
     match ce with
     | Some v => if truthy ce then set_header (hdr "content-encoding") v
                   (set_header (hdr "content-length") (HNum n) hs)
                 else set_header (hdr "content-length") (HNum n) hs
     | None => set_header (hdr "content-length") (HNum n) hs
     end) = Some (HNum n).
Proof.
  cbv zeta. destruct (hget (hdr "content-encoding") (up_headers up)) as [v|].
  - destruct (truthy (Some v)).
    + rewrite get_ci_set, bool_decide_false by exact ce_ne_cl.
      by rewrite get_ci_set, bool_decide_true.
    + by rewrite get_ci_set, bool_decide_true.
  - by rewrite get_ci_set, bool_decide_true.
Qed.

(** ** Static pieces of text and the passes of the rewriters *)

Section StaticPieces.


Lemma contains_char_absent (q l : text) (c : ascii) :
  In c q -> ~ In c l -> contains q l = false.
Proof.
  intros Hq Hl. destruct (contains q l) eqn:E; [|reflexivity].
  apply contains_spec in E as (u & v & ->). exfalso. apply Hl.
  apply in_app_iff. right. apply in_app_iff. left. exact Hq.
Qed.

Lemma prefixb_app_split (q p w : text) :
  prefixb q (p ++ w) = true ->
  prefixb q p = true \/ (length p < length q /\ prefixb (drop (length p) q) w = true).
Proof.
  revert q. induction p as [|a p IH]; intros [|c q] H; cbn in *.
  - left. reflexivity.
  - right. split; [lia | exact H].
  - left. reflexivity.
  - apply andb_prop in H as [Hc H]. destruct (IH q H) as [H1 | [H1 H2]].
    + left. rewrite Hc, H1. reflexivity.
    + right. split; [lia | exact H2].
Qed.

(** No occurrence of [q] starts inside [pre] when [pre] does not contain
    [q] and no proper suffix of [q] starts the text that follows. *)
Lemma no_start_inside (q pre w : text) :
  (forall k, 0 < k < length q -> prefixb (drop k q) w = false) ->
  contains q pre = false ->
  forall p1 p2, pre = p1 ++ p2 -> p2 <> [] -> prefixb q (p2 ++ w) = false.
Proof.
  intros Hw Hpre p1 p2 -> Hp2. destruct (prefixb q (p2 ++ w)) eqn:E; [|reflexivity].
  destruct (prefixb_app_split q p2 w E) as [H | [Hl H]].
  - rewrite (contains_app_r q p1 p2 (prefixb_contains _ _ H)) in Hpre. discriminate Hpre.
  - rewrite Hw in H; [discriminate H|]. destruct p2; [contradiction|]. simpl in *. lia.
Qed.

Lemma replace_all_skip (mt : matcher) (pre w : text) :
  matcher_wf mt -> (forall p1 p2, pre = p1 ++ p2 -> p2 <> [] -> mt (p2 ++ w) = None) ->
  replace_all mt (pre ++ w) = pre ++ replace_all mt w.
Proof.
  intros Hwf. induction pre as [|c pre IH]; intros H; [reflexivity|].
  pose proof (H [] (c :: pre) eq_refl ltac:(discriminate)) as E0. cbn [app] in E0 |- *.
  rewrite (replace_all_cons mt Hwf), E0. f_equal.
  apply IH. intros p1 p2 E Hp2. apply (H (c :: p1) p2); [rewrite E; reflexivity | exact Hp2].
Qed.

Lemma proto_rel_skip (name pre w : text) :
  (forall k, 0 < k < length (name ++ lit "=") -> prefixb (drop k (name ++ lit "=")) w = false) ->
  contains (name ++ lit "=") pre = false ->
  replace_all (match_proto_rel name) (pre ++ w) = pre ++ replace_all (match_proto_rel name) w.
Proof.
  intros Hw Hpre. apply replace_all_skip; [apply match_proto_rel_wf|].
  intros p1 p2 E Hp2. unfold match_proto_rel.
  rewrite (no_start_inside (name ++ lit "=") pre w Hw Hpre p1 p2 E Hp2). reflexivity.
Qed.

Lemma proto_rel_head (name x post : text) :
  Forall (fun c => is_quote c = false /\ is_line_term c = false) x ->
  replace_all (match_proto_rel name) (name ++ lit "=" ++ dq ++ lit "//" ++ x ++ dq ++ post) =
  name ++ lit "=" ++ dq ++ fetch_prefix ++ encodeURIComponent (lit "https://" ++ x) ++ dq ++
    replace_all (match_proto_rel name) post.
Proof.
  intros Hx.
  assert (E : match_proto_rel name (name ++ lit "=" ++ dq ++ lit "//" ++ x ++ dq ++ post) =
              Some (name ++ lit "=" ++ dq ++ lit "//" ++ x ++ dq,
                    name ++ lit "=" ++ dq ++ lit "/fetch?url=" ++
                      encodeURIComponent (lit "https://" ++ x) ++ dq,
                    post)).
  { unfold match_proto_rel.
    rewrite (proj2 (prefixb_spec _ _)) by (exists (dq ++ lit "//" ++ x ++ dq ++ post);
                                           rewrite <- app_assoc; reflexivity).
    replace (length name + 1) with (length (name ++ lit "=")) by (rewrite length_app; reflexivity).
    rewrite (app_assoc name (lit "=")), drop_app_length.
    cbn -[lazy_to_quote encodeURIComponent].
    rewrite drop_0, (lazy_to_quote_plain x post (chr 34) Hx eq_refl).
    rewrite <- ?app_assoc. reflexivity. }
  rewrite (replace_all_match _ _ _ _ _ (match_proto_rel_wf _) E).
  rewrite <- !app_assoc. reflexivity.
Qed.

Lemma encode_char_no_eq (c : ascii) :
  forallb (fun x => negb (Ascii.eqb x "=")) (encode_char c) = true.
Proof. destruct c as [[] [] [] [] [] [] [] []]; vm_compute; reflexivity. Qed.

Lemma encode_no_eq (s : text) : ~ In "="%char (encodeURIComponent s).
Proof.
  intros Hin. unfold encodeURIComponent in Hin. apply in_flat_map in Hin as (c & _ & Hin).
  pose proof (proj1 (List.forallb_forall _ _) (encode_char_no_eq c) _ Hin) as H.
  cbn in H. discriminate H.
Qed.

End StaticPieces.

Section InjectionRevisions.

Lemma proto_rel_plain (name s : text) :
  contains (name ++ lit "=") s = false -> replace_all (match_proto_rel name) s = s.
Proof.
  intros Hs. apply replace_all_nomatch. intros t Ht. unfold match_proto_rel.
  destruct (prefixb (name ++ lit "=") t) eqn:E; [|reflexivity].
  rewrite (occurs_through _ t s (prefixb_contains _ _ E) Ht) in Hs. discriminate.
Qed.

Lemma revisions_plain (s pb : text) :
  contains scheme_sep s = false -> contains integrity_open s = false ->
  contains crossorigin_open s = false ->
  replace_all (lit_rule origin_prefixed_pats pb) s = s /\
  replace_all (lit_rule origin_pats pb) s = s /\
  replace_all (lit_rule dashnet_pats pb) s = s /\
  rewrite_cdn s = s /\ strip_integrity s = s /\ strip_crossorigin s = s.
Proof.
  intros Hs Hi Hc. destruct pats_scheme as (H1 & H2 & H3).
  repeat split.
  - apply lit_rule_plain; assumption.
  - apply lit_rule_plain; assumption.
  - apply lit_rule_plain; assumption.
  - apply cdn_plain, Hs.
  - apply strip_attr_id, Hi.
  - apply strip_attr_id, Hc.
Qed.

End InjectionRevisions.

(** * Claims *)

(** ** C1 *)



(** ** C2 *)

(** C2 (counterexample): the detector of index.js does not react to status
    429, and the detector of part_002 reacts to a marker outside the four
    listed kinds. *)
Lemma C2_counterexample :
  isCF 429 [] = false /\ isCloudflareChallengeStatus 200 (lit "DDoS protection") = true.
Proof. vm_compute. split; reflexivity. Qed.

(** C2 (amended): the challenge detector of index.js fires exactly when the
    status is 503 or the lower-cased body contains one of the three markers
    __cf_chl_rt_tk, cf-browser-verification and
    checking your browser before accessing; status 429 alone does not trigger
    it. The detector of part_002 never fires on status 0; on any other status
    it fires exactly when the status is 503 or 429 or the lower-cased body
    contains one of the five markers __cf_chl_rt_tk, cf_chl_,
    cf-browser-verification, ddos protection and
    checking your browser before accessing. *)
Theorem C2_isCF_exact :
  (forall status body,
     isCF status body = true <->
     status = 503 \/ contains (lit "__cf_chl_rt_tk") (toLowerCase body) = true \/
     contains (lit "cf-browser-verification") (toLowerCase body) = true \/
     contains (lit "checking your browser before accessing") (toLowerCase body) = true) /\
  (forall status body, status <> 0 ->
     isCloudflareChallengeStatus status body = true <->
     status = 503 \/ status = 429 \/
     contains (lit "__cf_chl_rt_tk") (toLowerCase body) = true \/
     contains (lit "cf_chl_") (toLowerCase body) = true \/
     contains (lit "cf-browser-verification") (toLowerCase body) = true \/
     contains (lit "ddos protection") (toLowerCase body) = true \/
     contains (lit "checking your browser before accessing") (toLowerCase body) = true) /\
  (forall body, isCloudflareChallengeStatus 0 body = false).
Proof.
  split; [|split].
  - intros status body. unfold isCF. rewrite !orb_true_iff, Nat.eqb_eq. tauto.
  - intros status body Hs. unfold isCloudflareChallengeStatus.
    rewrite (proj2 (Nat.eqb_neq status 0) Hs).
    destruct (Nat.eqb_spec status 503) as [->|H1].
    { split; [intros _; left; reflexivity | intros _; reflexivity]. }
    destruct (Nat.eqb_spec status 429) as [->|H2].
    { split; [intros _; right; left; reflexivity | intros _; reflexivity]. }
    cbn [orb]. destruct (bool_decide_reflect (body = [])) as [->|Hne].
    + split; [discriminate|]. intros [E|[E|H]]; [lia|lia|].
      vm_compute in H. repeat destruct H as [H|H]; discriminate H.
    + cbv zeta. rewrite !orb_true_iff.
      split; [intros H; right; right; tauto | intros [E|[E|H]]; [lia|lia|tauto]].
  - intros body. reflexivity.
Qed.

(** ** C3 *)

(** An upstream answer in the shape of a challenge page (status 503, HTML)
    with a content security policy. *)
Lemma C3_counterexample :
  let up := {| up_status := 503;
               up_headers := [(hdr "content-type", HStr (lit "text/html"));
                              (hdr "content-security-policy", HStr (lit "default-src none"))];
               up_body := body_of "x" |} in
  match onProxyRes toy_codecs up [] with
  | Sent st hs b =>
      st = 503 /\ b = up_body up /\
      get_ci (hdr "content-security-policy") hs = Some (HStr (lit "default-src none"))
  | Piped => False
  end.
Proof. vm_compute. repeat split. Qed.

(** C3 (amended): on a textual upstream answer the detector classifies as a
    challenge, the client receives the status (or 200 when it is 0), the raw
    still-compressed bytes, and every upstream header verbatim, the content
    security policy, X-Frame-Options and set-cookie included: any name other
    than content-encoding carries its last upstream value, or keeps the value
    it had before when the upstream does not send it. The content-encoding
    header is set to the lower-cased upstream encoding when that is not empty. *)
Theorem C3_challenge_relay (Z : Codecs) (up : upstream) (init : headers) (enc ctype : text) :
  lower_header (hget (hdr "content-encoding") (up_headers up)) = Some enc ->
  lower_header (hget (hdr "content-type") (up_headers up)) = Some ctype ->
  is_textual ctype = true ->
  isCF (up_status up) (utf8_decode Z (decode_body Z enc (up_body up))) = true ->
  exists hs, onProxyRes Z up init = Sent (status_or_200 (up_status up)) hs (up_body up) /\
    (forall k, toLowerCase k <> hdr "content-encoding" ->
       get_ci k hs = match get_ci k (rev (up_headers up)) with
                     | Some v => Some v
                     | None => get_ci k init
                     end) /\
    (enc <> [] -> get_ci (hdr "content-encoding") hs = Some (HStr enc)).
Proof.
  intros He Hc Ht Hcf. unfold onProxyRes. rewrite He, Hc, Ht, Hcf.
  eexists. split; [reflexivity|]. split.
  - intros k Hk. destruct (bool_decide (enc = [])).
    + by rewrite get_ci_copy, filter_keep_all.
    + rewrite get_ci_set, bool_decide_false by (by change (toLowerCase (hdr "content-encoding")) with (hdr "content-encoding")).
      by rewrite get_ci_copy, filter_keep_all.
  - intros Hne. rewrite bool_decide_false by done.
    rewrite get_ci_set, bool_decide_true by reflexivity. done.
Qed.

(** ** C4 *)

(** C4 (counterexample): a second run injects the safety script again, and
    a CDN URL glued behind a bare CDN origin is prefixed twice. *)
Lemma C4_counterexample :
  rewriteText (rewriteText (lit "</head>")) <> rewriteText (lit "</head>") /\
  rewriteText (rewriteText (lit "https://fonts.gstatic.comhttps://fonts.gstatic.com/x")) <>
  rewriteText (lit "https://fonts.gstatic.comhttps://fonts.gstatic.com/x").
Proof.
  split; intros H; apply (f_equal length) in H; vm_compute in H; discriminate.
Qed.

(** C4 (amended): [rewriteText] is not idempotent. On every text without a
    scheme separator, without integrity and crossorigin attributes and with
    a closing head tag, running it again changes the output: the safety
    script is injected a second time and the text grows by its length. *)
Theorem C4_second_injection (s : text) :
  contains scheme_sep s = false -> contains integrity_open s = false ->
  contains crossorigin_open s = false -> contains head_close s = true ->
  length (rewriteText (rewriteText s)) = length (rewriteText s) + length safetyScript /\
  rewriteText (rewriteText s) <> rewriteText s.
Proof.
  intros Hs Hi Hx Hh.
  destruct literal_overlaps as [HL Hsep]. rewrite List.Forall_forall in HL.
  destruct (HL integrity_open ltac:(right; right; left; reflexivity)) as (_ & _ & Hi3).
  destruct (HL crossorigin_open ltac:(right; right; right; left; reflexivity)) as (_ & _ & Hx3).
  rewrite (rewriteText_plain s Hs Hi Hx).
  rewrite (rewriteText_plain (inject_safety s) (inject_preserve _ _ Hsep Hs)
             (inject_preserve _ _ Hi3 Hi) (inject_preserve _ _ Hx3 Hx)).
  assert (Hlen : length (inject_safety (inject_safety s)) =
                 length (inject_safety s) + length safetyScript)
    by exact (inject_length _ (inject_head _ Hh)).
  assert (Hpos : 0 < length safetyScript) by (vm_compute; lia).
  split; [exact Hlen|]. intros H. rewrite H in Hlen. lia.
Qed.

(** ** C5 *)

(** C5 (counterexample): a gzip-labelled HTML answer whose bytes are not a
    gzip stream is rewritten and gzip-compressed, not relayed as it came. *)
Lemma C5_counterexample :
  let up := {| up_status := 200;
               up_headers := [(hdr "content-type", HStr (lit "text/html"));
                              (hdr "content-encoding", HStr (lit "gzip"))];
               up_body := body_of "https://dashnet.org" |} in
  gunzipSync toy_codecs (up_body up) = None /\
  match onProxyRes toy_codecs up [] with
  | Sent st _ b => st = 200 /\ b = gzipSync toy_codecs (body_of "/cookieclicker") /\ b <> up_body up
  | Piped => False
  end.
Proof.
  vm_compute. split; [reflexivity|]. split; [reflexivity|].
  split; [reflexivity | intros Heq; discriminate Heq].
Qed.

(** C5 (amended): when the declared encoding is gzip, deflate or br and the
    bytes fail to decompress, neither the handler of index.js nor the one of
    part_002 fails on a textual answer: the raw bytes are taken as the
    decoded body and a response is always sent with the upstream status, or
    200 when it is 0. On a challenge the raw bytes are relayed; otherwise
    they are decoded as UTF-8, rewritten, re-encoded and compressed again
    with the declared algorithm. Rewriting is not skipped. *)
Theorem C5_decode_failure_rewritten (Z : Codecs) (up : upstream) (init : headers) (enc ctype : text) :
  lower_header (hget (hdr "content-encoding") (up_headers up)) = Some enc ->
  (enc = lit "gzip" /\ gunzipSync Z (up_body up) = None) \/
  (enc = lit "deflate" /\ inflateSync Z (up_body up) = None) \/
  (enc = lit "br" /\ brotliDecompressSync Z (up_body up) = None) ->
  lower_header (hget (hdr "content-type") (up_headers up)) = Some ctype ->
  is_textual ctype = true ->
  decode_body Z enc (up_body up) = up_body up /\
  (isCF (up_status up) (utf8_decode Z (up_body up)) = true ->
   exists hs, onProxyRes Z up init = Sent (status_or_200 (up_status up)) hs (up_body up)) /\
  (isCF (up_status up) (utf8_decode Z (up_body up)) = false ->
   exists hs, onProxyRes Z up init =
     Sent (status_or_200 (up_status up)) hs
          (encode_body Z enc (utf8_encode Z (rewriteText (utf8_decode Z (up_body up)))))) /\
  (isCloudflareChallengeStatus (up_status up) (utf8_decode Z (up_body up)) = true ->
   exists hs, onProxyRes_002 Z up init = Sent (status_or_200 (up_status up)) hs (up_body up)) /\
  (isCloudflareChallengeStatus (up_status up) (utf8_decode Z (up_body up)) = false ->
   exists hs, onProxyRes_002 Z up init =
     Sent (status_or_200 (up_status up)) hs
          (encode_body Z enc (utf8_encode Z (rewriteText_002 (utf8_decode Z (up_body up)) PROXY_PREFIX)))).
Proof.
  intros He Hfail Hc Ht.
  pose proof (decode_body_fail Z (up_body up) enc Hfail) as Hd.
  split; [exact Hd|]. split; [|split; [|split]].
  - intros Hcf. unfold onProxyRes. rewrite He, Hc, Ht, Hd, Hcf. by eexists.
  - intros Hcf. unfold onProxyRes. rewrite He, Hc, Ht, Hd, Hcf. by eexists.
  - intros Hcf. unfold onProxyRes_002. rewrite He, Hc. cbv zeta. rewrite Hd, Hcf.
    destruct (bool_decide (enc = lit "gzip")); [by eexists|].
    destruct (bool_decide (enc = lit "br")); by eexists.
  - intros Hcf. unfold onProxyRes_002. rewrite He, Hc. cbv zeta. rewrite Hd, Hcf, Ht.
    by eexists.
Qed.

(** ** C6 *)

(** C6: on the rewriting path (a textual answer that is not a challenge)
    the body sent is the rewritten text re-encoded and recompressed with the
    declared algorithm, and the content-length header of the client response
    is exactly the length of that buffer, whatever the upstream sent. *)
Theorem C6_content_length (Z : Codecs) (up : upstream) (init : headers) (enc ctype : text) :
  lower_header (hget (hdr "content-encoding") (up_headers up)) = Some enc ->
  lower_header (hget (hdr "content-type") (up_headers up)) = Some ctype ->
  is_textual ctype = true ->
  isCF (up_status up) (utf8_decode Z (decode_body Z enc (up_body up))) = false ->
  exists hs outBuf,
    onProxyRes Z up init = Sent (status_or_200 (up_status up)) hs outBuf /\
    outBuf = encode_body Z enc (utf8_encode Z (rewriteText (utf8_decode Z (decode_body Z enc (up_body up))))) /\
    get_ci (hdr "content-length") hs = Some (HNum (length outBuf)).
Proof.
  intros He Hc Ht Hcf. unfold onProxyRes. rewrite He, Hc, Ht, Hcf.
  do 2 eexists. split; [reflexivity|]. split; [reflexivity|].
  apply content_length_kept.
Qed.

(** ** C7 *)

(** C7: a [/fetch] request whose decoded URL names a host outside the
    allow-list is answered 403, and the state is left as it was: no
    outbound request is logged and the cache is unchanged. *)
Theorem C7_forbidden_host (request : list N -> option fresp)
    (url_hostname : list N -> option (list N)) (raw : text) (init : headers)
    (st : fstate) (url h : list N) :
  raw <> [] -> decodeURIComponent raw = Some url -> url_hostname url = Some h ->
  host_allowed h = false ->
  fetch_handler request url_hostname (Some raw) init st =
    (FStatus 403 init (body_of "host not allowed"), st).
Proof.
  intros Hr Hd Hu Ha. destruct raw as [|c r]; [done|].
  unfold fetch_handler. rewrite Hd, Hu, Ha. reflexivity.
Qed.

(** ** C10 *)

(** C10: a present but malformed [url] parameter, such as a lone percent
    sign, makes [decodeURIComponent] throw before the [try] block: the
    route ends in an uncaught exception, neither 400 nor 403 nor 502. *)
Theorem C10_malformed_uncaught :
  (forall request url_hostname init st,
     fetch_handler request url_hostname (Some (lit "%")) init st = (FUncaught, st)) /\
  (forall request url_hostname raw init st,
     raw <> [] -> decodeURIComponent raw = None ->
     fetch_handler request url_hostname (Some raw) init st = (FUncaught, st)).
Proof.
  split.
  - intros. reflexivity.
  - intros request url_hostname raw init st Hr Hd. destruct raw as [|c r]; [done|].
    unfold fetch_handler. by rewrite Hd.
Qed.

(** ** C8 *)

(** C8: a [backendFetch] call that goes to the network for a URL with no
    cache entry leaves an entry for it, expiring one hour later, exactly
    when caching is enabled for the call and the answer is cacheable (its
    content type includes image or its cache control includes max-age).
    Two [/fetch] requests for the same allowed URL within the hour, the
    first of which meets no entry and gets a cacheable answer, make exactly
    one outbound request, and the second gets the same answer. *)
Theorem C8_cache_once :
  (forall (request : list N -> option fresp) url noCache st out st',
     fcache st !! fetch_key url = None ->
     backendFetch request url noCache st = (Some out, st') ->
     fcalls st' = fcalls st ++ [url] /\
     (fcache st' !! fetch_key url = Some (out, (fnow st + stdTTL_ms)%N) <->
      noCache = false /\ cacheable out = Some true) /\
     (is_Some (fcache st' !! fetch_key url) <-> noCache = false /\ cacheable out = Some true)) /\
  (forall (request : list N -> option fresp) url_hostname raw init st t2 url h out,
     raw <> [] -> decodeURIComponent raw = Some url -> url_hostname url = Some h ->
     host_allowed h = true -> fcache st !! fetch_key url = None ->
     request url = Some out -> cacheable out = Some true ->
     (fnow st <= t2 <= fnow st + stdTTL_ms)%N ->
     let r1 := fetch_handler request url_hostname (Some raw) init st in
     let r2 := fetch_handler request url_hostname (Some raw) init (advance t2 r1.2) in
     fcalls r2.2 = fcalls st ++ [url] /\ r2.1 = r1.1).
Proof.
  split.
  - intros request url noCache st out st' Hnone Hb. unfold backendFetch in Hb.
    destruct noCache.
    + cbv beta iota zeta in Hb.
      destruct (request url) as [o|]; [|discriminate].
      injection Hb as <- <-. cbn [fcache fcalls log_call]. rewrite Hnone.
      split; [done|]. split; split; try (intros [H _]; discriminate H).
      * intros H; discriminate H.
      * intros [v H]; discriminate H.
    + unfold cache_get in Hb. rewrite Hnone in Hb. cbv beta iota zeta in Hb.
      destruct (request url) as [o|]; [|discriminate].
      destruct (cacheable o) as [[|]|] eqn:Ec; [| |discriminate];
        injection Hb as <- <-; cbn [fcache fcalls fnow log_call cache_set].
      * rewrite lookup_insert_eq. split; [done|]. split; split; try done.
      * rewrite Hnone. split; [done|]. split; split; intros H;
          [discriminate H | destruct H; congruence | destruct H as [v H]; discriminate H |
           destruct H; congruence].
  - intros request url_hostname raw init st t2 url h out Hr Hd Hu Ha Hnone Hreq Hc Ht.
    destruct raw as [|c r]; [done|]. cbv zeta.
    assert (Hlt : (fnow st + stdTTL_ms <? t2)%N = false) by (apply N.ltb_ge; lia).
    unfold fetch_handler, backendFetch, cache_get. rewrite Hd, Hu, Ha. cbn [negb].
    rewrite Hnone. cbv beta iota zeta. rewrite Hreq, Hc.
    cbn [fst snd fcache fnow fcalls advance cache_set log_call].
    rewrite lookup_insert_eq, Hlt. cbn [fst snd fcalls]. split; reflexivity.
Qed.

(** ** C9 *)

(** C9 (counterexample): the Content Rewriter of index.js leaves a
    protocol-relative image reference untouched. *)
Lemma C9_counterexample :
  let s := lit "<img src=" ++ dq ++ lit "//example.com/a.png" ++ dq ++ lit ">" in
  rewriteText s = s.
Proof. vm_compute. reflexivity. Qed.

(** C9 (amended): [rewriteText] of index.js has no protocol-relative rule:
    a text without a scheme separator, without integrity and crossorigin
    attributes and without a closing head tag comes out unchanged, so its
    src and href references starting with two slashes stay as they are.
    The rule exists in [rewriteHtml] of part_001: in a text without a scheme
    separator and without integrity and crossorigin attributes, a
    double-quoted src or href reference starting with two slashes, whose
    value has no quote, no line terminator and no src=, is rewritten to the
    fetch endpoint with the URL https:// followed by the value, URL-encoded,
    when src= and href= occur nowhere else in the text; the rest of the text
    is kept, and only the injection before the closing head tag follows. *)
Theorem C9_proto_rel :
  (forall s, contains scheme_sep s = false -> contains integrity_open s = false ->
     contains crossorigin_open s = false -> contains head_close s = false ->
     rewriteText s = s) /\
  (forall name pre x post pb, name = lit "src" \/ name = lit "href" ->
     let s := pre ++ name ++ lit "=" ++ dq ++ lit "//" ++ x ++ dq ++ post in
     contains scheme_sep s = false -> contains integrity_open s = false ->
     contains crossorigin_open s = false ->
     Forall (fun c => is_quote c = false /\ is_line_term c = false) x ->
     contains (lit "src=") pre = false -> contains (lit "href=") pre = false ->
     contains (lit "src=") x = false ->
     contains (lit "src=") post = false -> contains (lit "href=") post = false ->
     rewriteHtml s pb =
     replace_first_ci head_close (injection ++ head_close)
       (pre ++ name ++ lit "=" ++ dq ++ fetch_prefix ++
          encodeURIComponent (lit "https://" ++ x) ++ dq ++ post)).
Proof.
  split.
  - intros s Hs Hi Hx Hh. rewrite (rewriteText_plain s Hs Hi Hx). by apply inject_absent.
  - intros name pre x post pb Hn s Hs Hi Hc Hx Hps Hph Hxs Hqs Hqh.
    destruct (revisions_plain s pb Hs Hi Hc) as (P1 & P2 & _ & P4 & P5 & P6).
    unfold rewriteHtml. cbv zeta. rewrite P1, P2, P4, P5, P6. unfold s.
    unfold rewrite_src_proto_rel, rewrite_href_proto_rel.
    assert (Henc : forall q, In "="%char q ->
              contains q (encodeURIComponent (lit "https://" ++ x)) = false)
      by (intros q Hq; apply (contains_char_absent _ _ "="%char Hq), encode_no_eq).
    destruct Hn as [-> | ->].
    + rewrite (proto_rel_skip (lit "src") pre); [| | exact Hps].
      2:{ intros k Hk. cbn in Hk. destruct k as [|[|[|[|k]]]]; try lia; reflexivity. }
      rewrite (proto_rel_head (lit "src") x post Hx), (proto_rel_plain (lit "src") post Hqs).
      rewrite (proto_rel_plain (lit "href")); [reflexivity|].
      replace (pre ++ lit "src" ++ lit "=" ++ dq ++ fetch_prefix ++
                 encodeURIComponent (lit "https://" ++ x) ++ dq ++ post)
        with (pre ++ (lit "src" ++ lit "=" ++ dq ++ fetch_prefix) ++
                (encodeURIComponent (lit "https://" ++ x) ++ dq ++ post)) by reflexivity.
      rewrite split_static by (vm_compute; reflexivity).
      change (lit "href" ++ lit "=") with (lit "href=").
      rewrite Hph, split_static by (vm_compute; reflexivity).
      rewrite Hqh, Henc by (cbn; tauto). reflexivity.
    + rewrite (proto_rel_plain (lit "src")).
      2:{ replace (pre ++ lit "href" ++ lit "=" ++ dq ++ lit "//" ++ x ++ dq ++ post)
            with (pre ++ (lit "href" ++ lit "=" ++ dq ++ lit "//") ++ (x ++ dq ++ post))
            by reflexivity.
          rewrite split_static by (vm_compute; reflexivity).
          change (lit "src" ++ lit "=") with (lit "src=").
          rewrite Hps, split_static by (vm_compute; reflexivity).
          rewrite Hxs, Hqs. reflexivity. }
      rewrite (proto_rel_skip (lit "href") pre); [| | exact Hph].
      2:{ intros k Hk. cbn in Hk. destruct k as [|[|[|[|[|k]]]]]; try lia; reflexivity. }
      rewrite (proto_rel_head (lit "href") x post Hx), (proto_rel_plain (lit "href") post Hqh).
      reflexivity.
Qed.

(** * Instances of the claims on concrete inputs *)


(** C2 at a body carrying the browser-verification marker in upper case. *)
Lemma C2_witness :
  (isCF 200 (lit "<div class=CF-Browser-Verification></div>") = true /\ isCF 503 [] = true) /\
  (isCloudflareChallengeStatus 429 [] = true /\
   isCloudflareChallengeStatus 200 (lit "<p>cf_chl_opt</p>") = true /\
   isCloudflareChallengeStatus 0 (lit "DDoS protection") = false).
Proof.
  split; [split|split; [|split]].
  - apply (proj2 (proj1 C2_isCF_exact 200 (lit "<div class=CF-Browser-Verification></div>"))).
    right; right; left. vm_compute. reflexivity.
  - apply (proj2 (proj1 C2_isCF_exact 503 [])). left. reflexivity.
  - apply (proj2 (proj1 (proj2 C2_isCF_exact) 429 [] ltac:(discriminate))).
    right; left. reflexivity.
  - apply (proj2 (proj1 (proj2 C2_isCF_exact) 200 (lit "<p>cf_chl_opt</p>") ltac:(discriminate))).
    right; right; right; left. vm_compute. reflexivity.
  - apply (proj2 (proj2 C2_isCF_exact)).
Defined.

(** C3 at a challenge page sent with a content security policy. *)
Lemma C3_witness :
  let up := {| up_status := 503;
               up_headers := [(hdr "content-type", HStr (lit "text/html"));
                              (hdr "content-security-policy", HStr (lit "frame-ancestors none"))];
               up_body := body_of "<html>Checking your browser before accessing</html>" |} in
  exists hs, onProxyRes toy_codecs up [] = Sent 503 hs (up_body up) /\
    get_ci (hdr "content-security-policy") hs = Some (HStr (lit "frame-ancestors none")).
Proof.
  intros up.
  destruct (C3_challenge_relay toy_codecs up [] [] (lit "text/html")
              ltac:(reflexivity) ltac:(reflexivity) ltac:(reflexivity) ltac:(vm_compute; reflexivity))
    as (hs & E & Hk & _).
  exists hs. split; [exact E|].
  rewrite Hk by (vm_compute; intros Heq; discriminate Heq). reflexivity.
Defined.

(** C4 at a minimal document. *)
Lemma C4_witness :
  let s := lit "<html><head><title>Cookie Clicker</title></head></html>" in
  length (rewriteText (rewriteText s)) = length (rewriteText s) + length safetyScript /\
  rewriteText (rewriteText s) <> rewriteText s.
Proof.
  intros s. apply C4_second_injection; vm_compute; reflexivity.
Defined.

(** C5 at a gzip-labelled answer whose bytes are plain text. *)
Lemma C5_witness :
  let up := {| up_status := 200;
               up_headers := [(hdr "content-type", HStr (lit "text/html"));
                              (hdr "content-encoding", HStr (lit "GZIP"))];
               up_body := body_of "<a href=https://dashnet.org>home</a>" |} in
  let up2 := {| up_status := 503;
                up_headers := [(hdr "content-type", HStr (lit "text/html"));
                               (hdr "content-encoding", HStr (lit "br"))];
                up_body := body_of "<html>Checking your browser before accessing</html>" |} in
  decode_body toy_codecs (lit "gzip") (up_body up) = up_body up /\
  (exists hs, onProxyRes toy_codecs up [] =
     Sent 200 hs (encode_body toy_codecs (lit "gzip")
                    (utf8_encode toy_codecs (rewriteText (utf8_decode toy_codecs (up_body up)))))) /\
  (exists hs, onProxyRes_002 toy_codecs up [] =
     Sent 200 hs (encode_body toy_codecs (lit "gzip")
                    (utf8_encode toy_codecs
                       (rewriteText_002 (utf8_decode toy_codecs (up_body up)) PROXY_PREFIX)))) /\
  (exists hs, onProxyRes toy_codecs up2 [] = Sent 503 hs (up_body up2)) /\
  (exists hs, onProxyRes_002 toy_codecs up2 [] = Sent 503 hs (up_body up2)).
Proof.
  intros up up2.
  destruct (C5_decode_failure_rewritten toy_codecs up [] (lit "gzip") (lit "text/html")
              ltac:(reflexivity) ltac:(left; split; reflexivity)
              ltac:(reflexivity) ltac:(reflexivity))
    as (Hd & _ & Hn & _ & Hn2).
  destruct (C5_decode_failure_rewritten toy_codecs up2 [] (lit "br") (lit "text/html")
              ltac:(reflexivity) ltac:(right; right; split; reflexivity)
              ltac:(reflexivity) ltac:(reflexivity))
    as (_ & Hc & _ & Hc2 & _).
  split; [exact Hd|]. split; [|split; [|split]].
  - apply Hn. vm_compute. reflexivity.
  - apply Hn2. vm_compute. reflexivity.
  - apply Hc. vm_compute. reflexivity.
  - apply Hc2. vm_compute. reflexivity.
Defined.

(** C6 at a well-formed gzip answer that announces a stale length. *)
Lemma C6_witness :
  let up := {| up_status := 200;
               up_headers := [(hdr "content-type", HStr (lit "application/javascript"));
                              (hdr "content-encoding", HStr (lit "gzip"));
                              (hdr "content-length", HNum 999)];
               up_body := gzipSync toy_codecs (body_of "load('https://orteil.dashnet.org/x.js')") |} in
  exists hs outBuf,
    onProxyRes toy_codecs up [] = Sent 200 hs outBuf /\
    outBuf = encode_body toy_codecs (lit "gzip")
               (utf8_encode toy_codecs (rewriteText (utf8_decode toy_codecs
                  (decode_body toy_codecs (lit "gzip") (up_body up))))) /\
    get_ci (hdr "content-length") hs = Some (HNum (length outBuf)).
Proof.
  intros up.
  apply (C6_content_length toy_codecs up [] (lit "gzip") (lit "application/javascript")).
  - reflexivity.
  - reflexivity.
  - reflexivity.
  - vm_compute. reflexivity.
Defined.

(** C7 at the request of the specification. *)
Lemma C7_witness :
  let st := {| fcache := ∅; fnow := 0%N; fcalls := [] |} in
  fetch_handler toy_request toy_hostname (Some (lit "http://evil.example.com/x")) [] st =
    (FStatus 403 [] (body_of "host not allowed"), st).
Proof.
  intros st.
  apply (C7_forbidden_host toy_request toy_hostname (lit "http://evil.example.com/x") [] st
           (map N_of_ascii (lit "http://evil.example.com/x")) (map N_of_ascii (lit "evil.example.com"))).
  - intros Heq. discriminate Heq.
  - vm_compute. reflexivity.
  - vm_compute. reflexivity.
  - vm_compute. reflexivity.
Defined.

(** C8 at an image from an allowed CDN, requested again half an hour later. *)
Lemma C8_witness :
  let st := {| fcache := ∅; fnow := 0%N; fcalls := [] |} in
  let raw := lit "https%3A%2F%2Ffonts.gstatic.com%2Fa.png" in
  let url := map N_of_ascii (lit "https://fonts.gstatic.com/a.png") in
  let out := {| f_status := 200; f_headers := [(hdr "content-type", HStr (lit "image/png"))];
                f_body := body_of "PNG" |} in
  let st' := cache_set (fetch_key url) out (log_call url st) in
  (fcalls st' = fcalls st ++ [url] /\
   (fcache st' !! fetch_key url = Some (out, (fnow st + stdTTL_ms)%N) <->
    false = false /\ cacheable out = Some true) /\
   (is_Some (fcache st' !! fetch_key url) <-> false = false /\ cacheable out = Some true)) /\
  (let r1 := fetch_handler toy_request toy_hostname (Some raw) [] st in
   let r2 := fetch_handler toy_request toy_hostname (Some raw) [] (advance 1800000%N r1.2) in
   fcalls r2.2 = fcalls st ++ [url] /\ r2.1 = r1.1).
Proof.
  intros st raw url out st'. split.
  - apply (proj1 C8_cache_once toy_request url false st out st').
    + reflexivity.
    + vm_compute. reflexivity.
  - apply (proj2 C8_cache_once toy_request toy_hostname raw [] st 1800000%N url
             (map N_of_ascii (lit "fonts.gstatic.com")) out).
    + intros Heq. discriminate Heq.
    + vm_compute. reflexivity.
    + vm_compute. reflexivity.
    + vm_compute. reflexivity.
    + reflexivity.
    + reflexivity.
    + vm_compute. reflexivity.
    + vm_compute. split; discriminate.
Defined.

(** C9 at a protocol-relative script reference. *)
Lemma C9_witness :
  let s := lit "<img src=" ++ dq ++ lit "//example.com/a.png" ++ dq ++ lit ">" in
  rewriteText s = s /\
  rewriteHtml (lit "<a " ++ lit "href" ++ lit "=" ++ dq ++ lit "//" ++ lit "cdn.example.com/lib.js" ++
                 dq ++ lit ">x</a>") PROXY_PREFIX =
    replace_first_ci head_close (injection ++ head_close)
      (lit "<a " ++ lit "href" ++ lit "=" ++ dq ++ fetch_prefix ++
         encodeURIComponent (lit "https://" ++ lit "cdn.example.com/lib.js") ++ dq ++ lit ">x</a>").
Proof.
  intros s. split.
  - apply (proj1 C9_proto_rel); vm_compute; reflexivity.
  - pose proof (proj2 C9_proto_rel (lit "href") (lit "<a ") (lit "cdn.example.com/lib.js")
                  (lit ">x</a>") PROXY_PREFIX (or_intror eq_refl)) as H.
    cbv zeta in H. apply H; first [vm_compute; reflexivity | repeat constructor].
Defined.

(** C10 at a truncated escape. *)
Lemma C10_witness :
  let st := {| fcache := ∅; fnow := 0%N; fcalls := [] |} in
  fetch_handler toy_request toy_hostname (Some (lit "%E0%A4%A")) [] st = (FUncaught, st) /\
  fetch_handler toy_request toy_hostname (Some (lit "%")) [] st = (FUncaught, st).
Proof.
  intros st. split.
  - apply (proj2 C10_malformed_uncaught).
    + intros Heq. discriminate Heq.
    + vm_compute. reflexivity.
  - apply (proj1 C10_malformed_uncaught).
Defined.

(** * Further properties of the proxy *)

(** ** URI encoding and decoding *)

Section UriRoundTrip.

Lemma decode_encode_char (c : ascii) (r : text) (f : nat) :
  decode_n (S f) (encode_char c ++ r) = option_map (cons (N_of_ascii c)) (decode_n f r).
Proof. destruct c as [[] [] [] [] [] [] [] []]; cbn; reflexivity. Qed.

Lemma encode_char_length (c : ascii) : 1 <= length (encode_char c).
Proof.
  unfold encode_char. destruct (uri_unreserved c); [simpl; lia|].
  destruct (_ <? 128); simpl; lia.
Qed.

Lemma encode_length (s : text) : length s <= length (encodeURIComponent s).
Proof.
  induction s as [|c s IH]; [simpl; lia|].
  unfold encodeURIComponent in *. cbn [flat_map]. rewrite length_app.
  pose proof (encode_char_length c). simpl. lia.
Qed.

Lemma decode_n_encode (s : text) (f : nat) :
  length s <= f -> decode_n f (encodeURIComponent s) = Some (map N_of_ascii s).
Proof.
  induction s as [|c s IH] in f |- *; intros Hf.
  - destruct f; reflexivity.
  - destruct f as [|f]; [simpl in Hf; lia|].
    unfold encodeURIComponent. cbn [flat_map].
    rewrite decode_encode_char. fold (encodeURIComponent s).
    rewrite IH by (simpl in Hf; lia). reflexivity.
Qed.

Lemma encode_char_chars (c : ascii) :
  forallb (fun x => uri_unreserved x || Ascii.eqb x "%") (encode_char c) = true.
Proof. destruct c as [[] [] [] [] [] [] [] []]; vm_compute; reflexivity. Qed.

Lemma decode_n_plain (s : text) (f : nat) :
  length s <= f -> Forall (fun c => c <> "%"%char) s ->
  decode_n f s = Some (map N_of_ascii s).
Proof.
  induction s as [|c s IH] in f |- *; intros Hf Hs.
  - destruct f; reflexivity.
  - destruct f as [|f]; [simpl in Hf; lia|].
    inversion Hs as [|? ? Hc Hs']; subst.
    cbn [decode_n]. destruct (Ascii.eqb_spec c "%"); [contradiction|].
    rewrite IH by (simpl in Hf; lia || exact Hs'). reflexivity.
Qed.

End UriRoundTrip.

(** X1: [decodeURIComponent] undoes [encodeURIComponent]: decoding the
    encoding of any text gives back its characters, as code points. This is
    a fact about the two functions alone; it does not model the query
    parser that runs before the [/fetch] route. *)
Theorem X1_uri_round_trip (s : text) :
  decodeURIComponent (encodeURIComponent s) = Some (map N_of_ascii s).
Proof.
  unfold decodeURIComponent. apply decode_n_encode, encode_length.
Qed.

(** X2: every character that [encodeURIComponent] emits is unreserved
    (a letter, a digit or one of - _ . ! ~ * ' ( )) or the percent sign;
    in particular no double quote, space, [<], [>] or [&]. *)
Theorem X2_encode_charset (s : text) :
  Forall (fun c => uri_unreserved c = true \/ c = "%"%char) (encodeURIComponent s).
Proof.
  apply List.Forall_forall. intros x Hx.
  unfold encodeURIComponent in Hx. apply in_flat_map in Hx as (c & _ & Hx).
  pose proof (proj1 (List.forallb_forall _ _) (encode_char_chars c) x Hx) as H.
  apply orb_true_iff in H as [H|H]; [left; exact H|right; apply Ascii.eqb_eq, H].
Qed.

(** X3: a [url] parameter with no percent sign decodes to itself. *)
Theorem X3_decode_plain (s : text) :
  Forall (fun c => c <> "%"%char) s -> decodeURIComponent s = Some (map N_of_ascii s).
Proof.
  intros Hs. unfold decodeURIComponent. apply decode_n_plain; [lia | exact Hs].
Qed.

(** ** The two challenge detectors *)

(** X4: whatever the inlined test of index.js classifies as a challenge,
    [isCloudflareChallengeStatus] of part_002 classifies as one too, for
    every non-zero status. *)
Theorem X4_isCF_included (status : nat) (body : text) :
  isCF status body = true -> status <> 0 -> isCloudflareChallengeStatus status body = true.
Proof.
  unfold isCF, isCloudflareChallengeStatus. intros H Hs.
  destruct (Nat.eqb_spec status 0) as [E|_]; [contradiction|].
  destruct (status =? 503) eqn:E503; [reflexivity|].
  destruct (status =? 429); [reflexivity|]. cbn [orb] in *.
  destruct (bool_decide_reflect (body = [])) as [->|_]; [vm_compute in H; discriminate H|].
  apply orb_true_iff in H as [H|H]; [apply orb_true_iff in H as [H|H]|].
  - rewrite H. reflexivity.
  - rewrite H, !orb_true_r. reflexivity.
  - rewrite H, !orb_true_r. reflexivity.
Qed.

(** ** The cache of [backendFetch] and the [/fetch] route *)

Section GatewayFacts.

Lemma backendFetch_calls (request : list N -> option fresp) (url : list N) (nc : bool) (st : fstate) :
  fcalls (backendFetch request url nc st).2 = fcalls st \/
  fcalls (backendFetch request url nc st).2 = fcalls st ++ [url].
Proof.
  unfold backendFetch, cache_get.
  destruct nc.
  - right. cbn. destruct (request url) as [out|]; reflexivity.
  - destruct (fcache st !! fetch_key url) as [[v t]|].
    + destruct (t <? fnow st)%N.
      * right. cbn. destruct (request url) as [out|]; [destruct (cacheable out) as [[]|]|]; reflexivity.
      * left. reflexivity.
    + right. cbn. destruct (request url) as [out|]; [destruct (cacheable out) as [[]|]|]; reflexivity.
Qed.

Lemma backendFetch_from (request : list N -> option fresp) (url : list N) (nc : bool) (st : fstate)
    (out : fresp) :
  (backendFetch request url nc st).1 = Some out ->
  request url = Some out \/ exists t, fcache st !! fetch_key url = Some (out, t).
Proof.
  unfold backendFetch, cache_get.
  destruct nc.
  - cbn. destruct (request url) as [o|]; cbn; intros H; [left; congruence | discriminate].
  - destruct (fcache st !! fetch_key url) as [[v t]|] eqn:E.
    + destruct (t <? fnow st)%N.
      * cbn. destruct (request url) as [o|]; [destruct (cacheable o) as [[]|]|]; cbn;
          intros H; try discriminate; left; congruence.
      * cbn. intros H. injection H as <-. right. exists t. reflexivity.
    + cbn. destruct (request url) as [o|]; [destruct (cacheable o) as [[]|]|]; cbn;
        intros H; try discriminate; left; congruence.
Qed.

Lemma get_ci_none (k : text) (l : headers) :
  Forall (fun kv => toLowerCase kv.1 <> toLowerCase k) l -> get_ci k l = None.
Proof.
  induction l as [|[k' v] l IH]; intros H; [reflexivity|].
  inversion H as [|? ? Hk Hl]; subst. cbn. rewrite bool_decide_false by exact Hk. apply IH, Hl.
Qed.

Lemma strip_fetch_lower (hs : headers) (k : text) :
  lower_names hs ->
  k = hdr "content-security-policy" \/ k = hdr "x-frame-options" \/ k = hdr "set-cookie" ->
  Forall (fun kv => toLowerCase kv.1 <> toLowerCase k) (rev (strip_fetch_headers hs)).
Proof.
  intros Hl Hk. apply List.Forall_forall. intros [k' v] Hin.
  rewrite <- in_rev, <- list_elem_of_In in Hin. unfold strip_fetch_headers in Hin.
  rewrite list_elem_of_filter, list_elem_of_In in Hin.
  destruct Hin as [Hkeep Hin]. cbn [fst] in *.
  pose proof (proj1 (List.Forall_forall _ _) Hl _ Hin) as E. cbn [fst] in E. rewrite E.
  destruct Hk as [ -> | [ -> | -> ] ]; intros Heq; rewrite Heq in Hkeep;
    vm_compute in Hkeep; contradiction.
Qed.

End GatewayFacts.

(** X5: with [noCache] set, [backendFetch] of index.js neither reads nor
    writes the cache: it makes one outbound request and returns its result. *)
Theorem X5_backendFetch_noCache (request : list N -> option fresp) (url : list N) (st : fstate) :
  backendFetch request url true st = (request url, log_call url st).
Proof.
  unfold backendFetch. cbn. destruct (request url); reflexivity.
Qed.

(** X6: an entry of the cache that has not expired is returned by
    [backendFetch] without any outbound request and without change of state. *)
Theorem X6_backendFetch_hit (request : list N -> option fresp) (url : list N) (st : fstate)
    (v : fresp) (t : N) :
  fcache st !! fetch_key url = Some (v, t) -> (fnow st <= t)%N ->
  backendFetch request url false st = (Some v, st).
Proof.
  intros E Ht. unfold backendFetch, cache_get. rewrite E.
  replace (t <? fnow st)%N with false by (symmetry; apply N.ltb_ge; lia). reflexivity.
Qed.

(** X7: on a miss (no entry, or an entry past its expiry time) [backendFetch]
    makes exactly one outbound request; a stale entry is never returned.
    The key then holds the fresh response with a one-hour expiry if it is
    cacheable, and nothing otherwise; a failed request or a header of the
    wrong type gives no result. *)
Theorem X7_backendFetch_miss (request : list N -> option fresp) (url : list N) (st : fstate) :
  match fcache st !! fetch_key url with None => True | Some (_, t) => (t < fnow st)%N end ->
  let r := backendFetch request url false st in
  fcalls r.2 = fcalls st ++ [url] /\
  match request url with
  | None => r.1 = None /\ fcache r.2 !! fetch_key url = None
  | Some out =>
      match cacheable out with
      | Some true => r.1 = Some out /\ fcache r.2 !! fetch_key url = Some (out, (fnow st + stdTTL_ms)%N)
      | Some false => r.1 = Some out /\ fcache r.2 !! fetch_key url = None
      | None => r.1 = None /\ fcache r.2 !! fetch_key url = None
      end
  end.
Proof.
  intros H. unfold backendFetch, cache_get.
  destruct (fcache st !! fetch_key url) as [[v t]|] eqn:E.
  - rewrite (proj2 (N.ltb_lt _ _) H). cbn.
    destruct (request url) as [out|]; [destruct (cacheable out) as [[]|]|]; cbn;
      split; try reflexivity; split; try reflexivity;
      rewrite ?lookup_insert_eq, ?lookup_delete_eq; reflexivity.
  - cbn.
    destruct (request url) as [out|]; [destruct (cacheable out) as [[]|]|]; cbn;
      split; try reflexivity; split; try reflexivity;
      rewrite ?lookup_insert_eq; first [reflexivity | exact E].
Qed.

(** X8: the [/fetch] route makes at most one outbound request, and only to
    the decoded URL of a present [url] parameter whose host is in the
    allow-list. *)
Theorem X8_fetch_calls (request : list N -> option fresp) (url_hostname : list N -> option (list N))
    (raw : option text) (init : headers) (st : fstate) :
  let r := fetch_handler request url_hostname raw init st in
  fcalls r.2 = fcalls st \/
  exists s url h, raw = Some s /\ decodeURIComponent s = Some url /\ url_hostname url = Some h /\
    host_allowed h = true /\ fcalls r.2 = fcalls st ++ [url].
Proof.
  cbn zeta. unfold fetch_handler.
  destruct raw as [[|c s]|]; [left; reflexivity| |left; reflexivity].
  destruct (decodeURIComponent (c :: s)) as [url|] eqn:Ed; [|left; reflexivity].
  destruct (url_hostname url) as [h|] eqn:Eh; [|left; reflexivity].
  destruct (host_allowed h) eqn:Ea; [|left; reflexivity].
  cbn [negb].
  destruct (backendFetch_calls request url false st) as [Hc|Hc];
    destruct (backendFetch request url false st) as [[out|] st'];
    cbn in Hc |- *; try (left; exact Hc);
    right; exists (c :: s), url, h; repeat split; assumption.
Qed.

(** X9: the headers content-security-policy, x-frame-options and
    set-cookie of the upstream answer never reach the client of [/fetch]:
    whatever the route answers, these headers are the ones the response
    had before. Upstream header names are in lower case. *)
Theorem X9_fetch_strips (request : list N -> option fresp) (url_hostname : list N -> option (list N))
    (raw : option text) (init : headers) (st : fstate) (code : nat) (hs : headers) (body : bytes)
    (st' : fstate) (k : text) :
  (forall u out, request u = Some out -> lower_names (f_headers out)) ->
  (forall k' e, fcache st !! k' = Some e -> lower_names (f_headers e.1)) ->
  fetch_handler request url_hostname raw init st = (FStatus code hs body, st') ->
  k = hdr "content-security-policy" \/ k = hdr "x-frame-options" \/ k = hdr "set-cookie" ->
  get_ci k hs = get_ci k init.
Proof.
  intros Hreq Hcache Hf Hk. unfold fetch_handler in Hf.
  destruct raw as [[|c s]|]; [injection Hf as _ <- _ _; reflexivity| |injection Hf as _ <- _ _; reflexivity].
  destruct (decodeURIComponent (c :: s)) as [url|]; [|discriminate Hf].
  destruct (url_hostname url) as [h|]; [|injection Hf as _ <- _ _; reflexivity].
  destruct (host_allowed h); cbn [negb] in Hf; [|injection Hf as _ <- _ _; reflexivity].
  pose proof (backendFetch_from request url false st) as Hfrom.
  destruct (backendFetch request url false st) as [[out|] st0];
    [|injection Hf as _ <- _ _; reflexivity].
  injection Hf as _ <- _ _.
  assert (Hl : lower_names (f_headers out)).
  { destruct (Hfrom out eq_refl) as [E|[t E]]; [exact (Hreq _ _ E) | exact (Hcache _ _ E)]. }
  rewrite get_ci_copy, filter_keep_all, get_ci_none; [reflexivity|].
  apply strip_fetch_lower; assumption.
Qed.

(** X10: [backendFetch] of part_001 stores a response whose cache-control
    contains max-age even when [noCache] is set, since its test reads
    [(!noCache && ...) || ...]; that of index.js does not (X5). *)
Theorem X10_backendFetch_001_noCache (request : list N -> option fresp) (url : list N) (st : fstate)
    (out : fresp) :
  request url = Some out ->
  js_includes (hget (hdr "cache-control") (f_headers out)) (lit "max-age") = Some true ->
  backendFetch_001 request url true st = (Some out, cache_set (fetch_key url) out (log_call url st)).
Proof.
  intros Hr Hc. unfold backendFetch_001. cbv beta iota zeta. rewrite Hr.
  cbv beta iota zeta. rewrite Hc. reflexivity.
Qed.

(** ** Response headers *)

Ltac hdr_neq := let H := fresh in intros H; vm_compute in H; discriminate H.

Section HeaderFacts.

Lemma get_ci_set_other (k k' : text) (v : hval) (hs : headers) :
  toLowerCase k' <> toLowerCase k -> get_ci k (set_header k' v hs) = get_ci k hs.
Proof. intros H. rewrite get_ci_set, bool_decide_false by exact H. reflexivity. Qed.

Lemma get_ci_set_same (k : text) (v : hval) (hs : headers) : get_ci k (set_header k v hs) = Some v.
Proof. rewrite get_ci_set, bool_decide_true by reflexivity. reflexivity. Qed.

Lemma get_ci_remove (k k' : text) (hs : headers) :
  get_ci k (remove_header k' hs) =
  if bool_decide (toLowerCase k' = toLowerCase k) then None else get_ci k hs.
Proof.
  unfold remove_header. induction hs as [|[k0 v] hs IH]; cbn [List.filter get_ci].
  - destruct (bool_decide _); reflexivity.
  - cbn [fst]. destruct (bool_decide_reflect (toLowerCase k0 = toLowerCase k')) as [E|E];
      cbn [negb get_ci]; rewrite IH;
      destruct (bool_decide_reflect (toLowerCase k' = toLowerCase k));
      destruct (bool_decide_reflect (toLowerCase k0 = toLowerCase k)); cbn; congruence.
Qed.

Lemma get_ci_remove_same (k : text) (hs : headers) : get_ci k (remove_header k hs) = None.
Proof. rewrite get_ci_remove, bool_decide_true by reflexivity. reflexivity. Qed.

Lemma get_ci_remove_other (k k' : text) (hs : headers) :
  toLowerCase k' <> toLowerCase k -> get_ci k (remove_header k' hs) = get_ci k hs.
Proof. intros H. rewrite get_ci_remove, bool_decide_false by exact H. reflexivity. Qed.

Lemma get_ci_filter_keep (f : text * hval -> bool) (k : text) (l : headers) :
  (forall kv, In kv l -> toLowerCase kv.1 = toLowerCase k -> f kv = true) ->
  get_ci k (List.filter f l) = get_ci k l.
Proof.
  induction l as [|[k0 v] l IH]; intros H; [reflexivity|].
  cbn [List.filter]. destruct (f (k0, v)) eqn:Ef; cbn.
  - destruct (bool_decide _); [reflexivity|]. apply IH. intros kv Hin. apply H. right. exact Hin.
  - rewrite bool_decide_false.
    + apply IH. intros kv Hin. apply H. right. exact Hin.
    + intros E. rewrite (H (k0, v) (or_introl eq_refl) E) in Ef. discriminate Ef.
Qed.

Lemma get_ci_in (k k' : text) (v : hval) (l : headers) :
  In (k', v) l -> toLowerCase k' = toLowerCase k -> get_ci k l <> None.
Proof.
  induction l as [|[k0 v0] l IH]; intros Hin E; [destruct Hin|].
  cbn [get_ci]. destruct (bool_decide_reflect (toLowerCase k0 = toLowerCase k)); [discriminate|].
  destruct Hin as [Hin|Hin]; [injection Hin as -> ->; contradiction | exact (IH Hin E)].
Qed.

Lemma hget_in (k : text) (v : hval) (l : headers) : hget k l = Some v -> In (k, v) l.
Proof.
  induction l as [|[k0 v0] l IH]; cbn; [discriminate|].
  destruct (bool_decide_reflect (k0 = k)) as [->|_]; [intros H; injection H as ->; left; reflexivity|].
  intros H. right. exact (IH H).
Qed.

Lemma rev_filter {A} (f : A -> bool) (l : list A) : rev (List.filter f l) = List.filter f (rev l).
Proof.
  induction l as [|x l IH]; [reflexivity|].
  cbn [List.filter rev]. rewrite List.filter_app, <- IH. cbn [List.filter].
  destruct (f x); cbn [rev]; rewrite ?app_nil_r; reflexivity.
Qed.

(** The headers of [copy_headers] for a name that [skip] keeps. *)
Lemma get_ci_copy_kept (skip : text -> bool) (k : text) (up res : headers) :
  skip (toLowerCase k) = false ->
  get_ci k (copy_headers skip up res) =
  match get_ci k (rev up) with Some v => Some v | None => get_ci k res end.
Proof.
  intros Hs. rewrite get_ci_copy, rev_filter, get_ci_filter_keep; [reflexivity|].
  intros [k0 v] _ E. cbn in E |- *. rewrite E, Hs. reflexivity.
Qed.

(** The headers of [copy_headers] for a name that [skip] drops. *)
Lemma get_ci_copy_dropped (skip : text -> bool) (k : text) (up res : headers) :
  skip (toLowerCase k) = true -> get_ci k (copy_headers skip up res) = get_ci k res.
Proof.
  intros Hs. rewrite get_ci_copy, get_ci_none; [reflexivity|].
  apply List.Forall_forall. intros [k0 v] Hin E. cbn in E.
  apply in_rev, filter_In in Hin as [_ Hk]. cbn in Hk. rewrite E, Hs in Hk. discriminate Hk.
Qed.

Lemma get_ci_copy_absent (skip : text -> bool) (k : text) (up res : headers) :
  Forall (fun kv => toLowerCase kv.1 <> toLowerCase k) up ->
  get_ci k (copy_headers skip up res) = get_ci k res.
Proof.
  intros H. rewrite get_ci_copy, get_ci_none; [reflexivity|].
  apply List.Forall_forall. intros kv Hin. apply in_rev, filter_In in Hin as [Hin _].
  exact (proj1 (List.Forall_forall _ _) H kv Hin).
Qed.

End HeaderFacts.

Ltac hdr_simp :=
  repeat first [ rewrite get_ci_set_other by hdr_neq | rewrite get_ci_remove_other by hdr_neq ].

Section RevisionFacts.

Lemma hget_update_other (k k' : text) (v : hval) (hs : headers) :
  k <> k' -> hget k (update_key k' v hs) = hget k hs.
Proof.
  intros H. induction hs as [|[k0 v0] hs IH]; [reflexivity|]. cbn.
  destruct (bool_decide_reflect (k0 = k')) as [->|E]; cbn.
  - rewrite !bool_decide_false by congruence. reflexivity.
  - destruct (bool_decide (k0 = k)); [reflexivity|exact IH].
Qed.

Lemma hget_delete_other (k k' : text) (hs : headers) :
  k <> k' -> hget k (delete_key k' hs) = hget k hs.
Proof.
  intros H. unfold delete_key. induction hs as [|[k0 v0] hs IH]; [reflexivity|]. cbn [List.filter fst].
  destruct (bool_decide_reflect (k0 = k')) as [->|E]; cbn [negb hget].
  - rewrite bool_decide_false by congruence. exact IH.
  - destruct (bool_decide (k0 = k)); [reflexivity|exact IH].
Qed.

Lemma rewrite_location_hget (mt : matcher) (hs hs0 : headers) (k : text) :
  rewrite_location mt hs = Some hs0 -> k <> hdr "location" -> hget k hs0 = hget k hs.
Proof.
  unfold rewrite_location. intros H Hk.
  destruct (truthy (hget (hdr "location") hs)); [|congruence].
  destruct (hget (hdr "location") hs) as [[l| |]|]; try discriminate H.
  injection H as <-. apply hget_update_other, Hk.
Qed.

Lemma Forall_update (P : text -> Prop) (k : text) (v : hval) (hs : headers) :
  Forall (fun kv => P kv.1) hs -> Forall (fun kv => P kv.1) (update_key k v hs).
Proof.
  induction hs as [|[k0 v0] hs IH]; intros H; [constructor|].
  inversion H as [|? ? H0 H1]; subst. cbn. destruct (bool_decide (k0 = k)); constructor; auto.
Qed.

Lemma Forall_delete (P : text * hval -> Prop) (k : text) (hs : headers) :
  Forall P hs -> Forall P (delete_key k hs).
Proof.
  intros H. apply List.Forall_forall. intros kv Hin.
  apply filter_In in Hin as [Hin _]. exact (proj1 (List.Forall_forall _ _) H kv Hin).
Qed.

Lemma rewrite_location_lower (mt : matcher) (hs hs0 : headers) :
  rewrite_location mt hs = Some hs0 -> lower_names hs -> lower_names hs0.
Proof.
  unfold rewrite_location. intros H Hl.
  destruct (truthy (hget (hdr "location") hs)); [|congruence].
  destruct (hget (hdr "location") hs) as [[l| |]|]; try discriminate H.
  injection H as <-. apply (Forall_update (fun k => toLowerCase k = k)), Hl.
Qed.

Lemma delete_absent (k : text) (hs : headers) :
  lower_names hs -> toLowerCase k = k ->
  Forall (fun kv => toLowerCase kv.1 <> toLowerCase k) (delete_key k hs).
Proof.
  intros Hl Hk. apply List.Forall_forall. intros [k0 v] Hin.
  apply filter_In in Hin as [Hin Hkeep]. cbn [fst] in *.
  pose proof (proj1 (List.Forall_forall _ _) Hl _ Hin) as E. cbn [fst] in E.
  rewrite E, Hk. intros ->. rewrite bool_decide_true in Hkeep by reflexivity. discriminate Hkeep.
Qed.

Lemma decode_000_identity (Z : Codecs) (b : bytes) : decode_000 Z [] b = Some b.
Proof. reflexivity. Qed.

Lemma encode_000_identity (Z : Codecs) (b : bytes) : encode_000 Z [] b = b.
Proof. reflexivity. Qed.

Lemma hget_notin (k : text) (hs : headers) :
  ~ In k (map fst hs) -> hget k hs = None.
Proof.
  induction hs as [|[k0 v0] hs IH]; intros Hn; [reflexivity|]. cbn [hget].
  rewrite bool_decide_false; [apply IH; intros H; apply Hn; right; exact H|].
  intros ->. apply Hn. left. reflexivity.
Qed.

(** With lower-case, pairwise distinct names, the case-insensitive lookup
    of a lower-case name in the reversed list is the exact lookup. *)
Lemma get_ci_rev_hget (k : text) (hs : headers) :
  lower_names hs -> NoDup (map fst hs) -> toLowerCase k = k -> get_ci k (rev hs) = hget k hs.
Proof.
  intros Hl Hn Hk. induction hs as [|[k0 v0] hs IH]; [reflexivity|].
  inversion Hl as [|? ? Hk0 Hl']; subst. inversion Hn as [|? ? Hnot Hn']; subst.
  cbn [fst] in Hk0. rewrite list_elem_of_In in Hnot.
  cbn [rev hget]. rewrite get_ci_app, IH by assumption.
  destruct (bool_decide_reflect (k0 = k)) as [->|Hne].
  - rewrite hget_notin by exact Hnot. cbn. rewrite bool_decide_true by reflexivity. reflexivity.
  - destruct (hget k hs); [reflexivity|]. cbn.
    rewrite bool_decide_false; [reflexivity|]. rewrite Hk0, Hk. exact Hne.
Qed.

End RevisionFacts.

(** X11: in index.js, an answer whose content type is not textual is
    relayed with its raw bytes, still compressed as they came: every
    upstream header except content-length is copied onto the response, and
    content-length keeps the value the response had before. *)
Theorem X11_binary_relay (Z : Codecs) (up : upstream) (init : headers) (enc ctype : text) :
  lower_header (hget (hdr "content-encoding") (up_headers up)) = Some enc ->
  lower_header (hget (hdr "content-type") (up_headers up)) = Some ctype ->
  is_textual ctype = false ->
  exists hs, onProxyRes Z up init = Sent (status_or_200 (up_status up)) hs (up_body up) /\
    get_ci (hdr "content-length") hs = get_ci (hdr "content-length") init /\
    (forall k, toLowerCase k <> hdr "content-length" ->
       get_ci k hs = match get_ci k (rev (up_headers up)) with
                     | Some v => Some v
                     | None => get_ci k init
                     end).
Proof.
  intros H1 H2 Ht. unfold onProxyRes. rewrite H1, H2, Ht.
  eexists. split; [reflexivity|]. split.
  - apply get_ci_copy_dropped. reflexivity.
  - intros k Hk. apply get_ci_copy_kept. unfold skip_binary. apply bool_decide_false, Hk.
Qed.

(** X12: in index.js, when a textual answer is rewritten, the
    content-security-policy and x-frame-options headers of the upstream
    answer are not copied: the response keeps the values it had before. *)
Theorem X12_rewrite_drops_frame_headers (Z : Codecs) (up : upstream) (init : headers) (enc ctype : text) :
  lower_header (hget (hdr "content-encoding") (up_headers up)) = Some enc ->
  lower_header (hget (hdr "content-type") (up_headers up)) = Some ctype ->
  is_textual ctype = true ->
  isCF (up_status up) (utf8_decode Z (decode_body Z enc (up_body up))) = false ->
  exists hs out, onProxyRes Z up init = Sent (status_or_200 (up_status up)) hs out /\
    get_ci (hdr "content-security-policy") hs = get_ci (hdr "content-security-policy") init /\
    get_ci (hdr "x-frame-options") hs = get_ci (hdr "x-frame-options") init.
Proof.
  intros H1 H2 Ht Hc. unfold onProxyRes. rewrite H1, H2, Ht. cbv zeta. rewrite Hc.
  do 2 eexists. split; [reflexivity|].
  destruct (hget (hdr "content-encoding") (up_headers up)) as [v|];
    [destruct (truthy (Some v))|]; cbv iota;
    split; rewrite ?get_ci_set_other by hdr_neq; apply get_ci_copy_dropped; reflexivity.
Qed.

(** X13: in part_002, a challenge answer declared deflate-encoded is sent
    with its inflated bytes, while the client response still carries the
    content-encoding header copied from the upstream answer, whose value
    announces deflate: the body is sent decompressed under a header that
    says it is compressed. This holds for every content type, since the
    challenge test runs first. Upstream header names are in lower case and
    pairwise distinct, as Node hands them over. *)
Theorem X13_002_deflate_challenge (Z : Codecs) (up : upstream) (init : headers) (ctype : text) (d : bytes) :
  lower_names (up_headers up) -> NoDup (map fst (up_headers up)) ->
  lower_header (hget (hdr "content-encoding") (up_headers up)) = Some (lit "deflate") ->
  lower_header (hget (hdr "content-type") (up_headers up)) = Some ctype ->
  inflateSync Z (up_body up) = Some d ->
  isCloudflareChallengeStatus (up_status up) (utf8_decode Z d) = true ->
  exists hs v, onProxyRes_002 Z up init = Sent (status_or_200 (up_status up)) hs d /\
    get_ci (hdr "content-encoding") hs = Some v /\ lower_header (Some v) = Some (lit "deflate").
Proof.
  intros Hl Hn H1 H2 Hi Hc.
  destruct (hget (hdr "content-encoding") (up_headers up)) as [v|] eqn:Ev;
    [|vm_compute in H1; discriminate H1].
  assert (Hd : decode_body Z (lit "deflate") (up_body up) = d).
  { unfold decode_body. rewrite (bool_decide_false (lit "deflate" = lit "gzip")) by hdr_neq.
    rewrite bool_decide_true by reflexivity. rewrite Hi. reflexivity. }
  unfold onProxyRes_002. rewrite Ev, H1, H2. cbv zeta. rewrite Hd, Hc.
  rewrite (bool_decide_false (lit "deflate" = lit "gzip")) by hdr_neq.
  rewrite (bool_decide_false (lit "deflate" = lit "br")) by hdr_neq.
  eexists. exists v. split; [reflexivity|]. split; [|exact H1].
  rewrite get_ci_copy_kept by reflexivity.
  rewrite get_ci_rev_hget, Ev; [reflexivity | exact Hl | exact Hn | reflexivity].
Qed.

(** X14: the handlers of part_000 and part_001 remove the
    content-security-policy and x-frame-options headers (part_001 also
    x-xss-protection) from the upstream answer before anything is copied:
    whatever they send, these headers are the ones the response had
    before. Upstream header names are in lower case. *)
Theorem X14_revisions_drop_frame_headers (Z : Codecs) (up : upstream) (init : headers) :
  lower_names (up_headers up) ->
  (forall st hs body, onProxyRes_000 Z up init = SentE st hs body ->
     get_ci (hdr "content-security-policy") hs = get_ci (hdr "content-security-policy") init /\
     get_ci (hdr "x-frame-options") hs = get_ci (hdr "x-frame-options") init) /\
  (forall st hs body, onProxyRes_001 Z up init = SentE st hs body ->
     get_ci (hdr "content-security-policy") hs = get_ci (hdr "content-security-policy") init /\
     get_ci (hdr "x-frame-options") hs = get_ci (hdr "x-frame-options") init /\
     get_ci (hdr "x-xss-protection") hs = get_ci (hdr "x-xss-protection") init).
Proof.
  intros Hl. split.
  - intros st hs body H. unfold onProxyRes_000 in H.
    destruct (rewrite_location match_location_000 (up_headers up)) as [hs0|] eqn:El; [|discriminate H].
    pose proof (rewrite_location_lower _ _ _ El Hl) as L0. cbv zeta in H.
    assert (A1 : Forall (fun kv => toLowerCase kv.1 <> toLowerCase (hdr "content-security-policy"))
                   (delete_key (hdr "x-frame-options") (delete_key (hdr "content-security-policy") hs0)))
      by (apply Forall_delete, delete_absent; [exact L0 | reflexivity]).
    assert (A2 : Forall (fun kv => toLowerCase kv.1 <> toLowerCase (hdr "x-frame-options"))
                   (delete_key (hdr "x-frame-options") (delete_key (hdr "content-security-policy") hs0)))
      by (apply delete_absent; [apply Forall_delete, L0 | reflexivity]).
    destruct (lower_header _) as [ctype|]; [|discriminate H].
    destruct (negb _); [injection H as <- <- <-; split; apply get_ci_copy_absent; assumption|].
    destruct (lower_header _) as [enc|]; [|discriminate H].
    destruct (decode_000 Z enc (up_body up)) as [buf|]; [|discriminate H].
    destruct (hget (hdr "content-encoding") _) as [v|]; [destruct (truthy (Some v))|];
      injection H as <- <- <-; split;
      hdr_simp; apply get_ci_copy_absent; assumption.
  - intros st hs body H. unfold onProxyRes_001 in H.
    destruct (rewrite_location (lit_rule origin_pats PROXY_PREFIX) (up_headers up)) as [hs0|] eqn:El;
      [|discriminate H].
    pose proof (rewrite_location_lower _ _ _ El Hl) as L0. cbv zeta in H.
    assert (A1 : Forall (fun kv => toLowerCase kv.1 <> toLowerCase (hdr "content-security-policy"))
                   (delete_key (hdr "x-xss-protection") (delete_key (hdr "x-frame-options")
                      (delete_key (hdr "content-security-policy") hs0))))
      by (apply Forall_delete, Forall_delete, delete_absent; [exact L0 | reflexivity]).
    assert (A2 : Forall (fun kv => toLowerCase kv.1 <> toLowerCase (hdr "x-frame-options"))
                   (delete_key (hdr "x-xss-protection") (delete_key (hdr "x-frame-options")
                      (delete_key (hdr "content-security-policy") hs0))))
      by (apply Forall_delete, delete_absent; [apply Forall_delete, L0 | reflexivity]).
    assert (A3 : Forall (fun kv => toLowerCase kv.1 <> toLowerCase (hdr "x-xss-protection"))
                   (delete_key (hdr "x-xss-protection") (delete_key (hdr "x-frame-options")
                      (delete_key (hdr "content-security-policy") hs0))))
      by (apply delete_absent; [apply Forall_delete, Forall_delete, L0 | reflexivity]).
    destruct (lower_header _) as [ctype|]; [|discriminate H].
    destruct (negb _); [injection H as <- <- <-; split; [|split]; apply get_ci_copy_absent; assumption|].
    destruct (lower_header _) as [enc|]; [|discriminate H].
    destruct (decode_001 Z enc (up_body up)) as [buf|]; [|discriminate H].
    destruct (hget (hdr "content-encoding") _) as [v|]; [destruct (truthy (Some v))|];
      injection H as <- <- <-; (split; [|split]);
      hdr_simp; apply get_ci_copy_absent; assumption.
Qed.

(** X15: in part_000 and part_001 the decompression runs inside the
    [try] of the [end] listener, whose [catch] pipes the answer through:
    an HTML answer whose body fails to decompress ends in that fallback
    instead of a rewritten answer. *)
Theorem X15_revisions_decode_failure (Z : Codecs) (up : upstream) (init : headers) (ctype enc : text) :
  lower_header (hget (hdr "content-type") (up_headers up)) = Some ctype ->
  contains (lit "text/html") ctype = true ->
  lower_header (hget (hdr "content-encoding") (up_headers up)) = Some enc ->
  (rewrite_location match_location_000 (up_headers up) <> None ->
     decode_000 Z enc (up_body up) = None -> onProxyRes_000 Z up init = PipedE) /\
  (rewrite_location (lit_rule origin_pats PROXY_PREFIX) (up_headers up) <> None ->
     decode_001 Z enc (up_body up) = None -> onProxyRes_001 Z up init = PipedE).
Proof.
  intros Hct Hh Hce. split.
  - intros Hl Hd. unfold onProxyRes_000.
    destruct (rewrite_location match_location_000 (up_headers up)) as [hs0|] eqn:El; [|congruence].
    cbv zeta. rewrite !hget_delete_other by hdr_neq.
    rewrite !(rewrite_location_hget _ _ _ _ El) by hdr_neq.
    rewrite Hct, Hh. cbn [negb]. rewrite Hce, Hd. reflexivity.
  - intros Hl Hd. unfold onProxyRes_001.
    destruct (rewrite_location (lit_rule origin_pats PROXY_PREFIX) (up_headers up)) as [hs0|] eqn:El;
      [|congruence].
    cbv zeta. rewrite !hget_delete_other by hdr_neq.
    rewrite !(rewrite_location_hget _ _ _ _ El) by hdr_neq.
    rewrite Hct, Hh. cbn [negb]. rewrite Hce, Hd. reflexivity.
Qed.

(** X16: in part_000 an HTML answer without content-encoding is sent
    uncompressed, with content-length set to its length and with no
    content-encoding header, even one the response had before. *)
Theorem X16_000_identity_encoding (Z : Codecs) (up : upstream) (init : headers) (ctype : text) :
  rewrite_location match_location_000 (up_headers up) <> None ->
  lower_header (hget (hdr "content-type") (up_headers up)) = Some ctype ->
  contains (lit "text/html") ctype = true ->
  truthy (hget (hdr "content-encoding") (up_headers up)) = false ->
  let out := utf8_encode Z (rewrite_body_000 (utf8_decode Z (up_body up))) in
  exists hs, onProxyRes_000 Z up init = SentE (status_or_200 (up_status up)) hs out /\
    get_ci (hdr "content-encoding") hs = None /\
    get_ci (hdr "content-length") hs = Some (HNum (length out)).
Proof.
  intros Hl Hct Hh Htr out. unfold onProxyRes_000.
  destruct (rewrite_location match_location_000 (up_headers up)) as [hs0|] eqn:El; [|congruence].
  cbv zeta. rewrite !hget_delete_other by hdr_neq.
  rewrite !(rewrite_location_hget _ _ _ _ El) by hdr_neq.
  assert (Hce : lower_header (hget (hdr "content-encoding") (up_headers up)) = Some [])
    by (unfold lower_header; rewrite Htr; reflexivity).
  rewrite Hct, Hh. cbn [negb]. rewrite Hce, decode_000_identity, encode_000_identity.
  destruct (hget (hdr "content-encoding") (up_headers up)) as [v|] eqn:Ev; [rewrite Htr|];
    eexists; (split; [reflexivity|]); split;
    [apply get_ci_remove_same | rewrite get_ci_remove_other by hdr_neq; apply get_ci_set_same |
     apply get_ci_remove_same | rewrite get_ci_remove_other by hdr_neq; apply get_ci_set_same].
Qed.

Section LocationFacts.

Lemma replace_all_pass (mt : matcher) (a t : text) :
  matcher_wf mt -> (forall c r, In c a -> mt (c :: r) = None) ->
  replace_all mt (a ++ t) = a ++ replace_all mt t.
Proof.
  intros Hwf Ha. induction a as [|c a IH]; [reflexivity|].
  cbn [app]. rewrite (replace_all_cons mt Hwf), Ha by (left; reflexivity).
  f_equal. apply IH. intros c' r Hin. apply Ha. right. exact Hin.
Qed.

Lemma origin_head_none (c : ascii) (r : text) :
  Ascii.eqb "h" c = false -> first_prefix origin_pats (c :: r) = None.
Proof.
  intros H. unfold first_prefix, origin_pats, lit. cbn [list_ascii_of_string prefixb].
  rewrite H. reflexivity.
Qed.

Lemma match_location_000_wf : matcher_wf match_location_000.
Proof.
  intros s m r rest. unfold match_location_000.
  destruct (first_prefix origin_pats s) as [p|] eqn:E; [|discriminate].
  apply first_prefix_some in E as [Hin Hp]. apply prefix_drop in Hp.
  destruct pats_nonempty as (_ & Hne & _).
  pose proof (proj1 (List.Forall_forall _ _) Hne p Hin) as Hp0.
  destruct (drop (length p) s) as [|c r'] eqn:Ed.
  - intros [= <- _ <-]. split; [exact Hp | exact Hp0].
  - destruct (Ascii.eqb c "/"); intros [= <- _ <-]; split.
    + rewrite <- app_assoc. exact Hp.
    + destruct p; [contradiction | discriminate].
    + exact Hp.
    + exact Hp0.
Qed.

Lemma origin_https_first (s : text) : first_prefix origin_pats (origin_https ++ s) = Some origin_https.
Proof.
  unfold first_prefix, origin_pats.
  rewrite (proj2 (prefixb_spec _ _)) by (exists s; reflexivity). reflexivity.
Qed.

Lemma cookieclicker_pass (rep t : text) :
  replace_all (lit_rule origin_pats rep) (PROXY_PREFIX ++ t) = PROXY_PREFIX ++ replace_all (lit_rule origin_pats rep) t /\
  replace_all match_location_000 (lit "cookieclicker" ++ t) = lit "cookieclicker" ++ replace_all match_location_000 t.
Proof.
  destruct pats_nonempty as (_ & Hne & _). split; apply replace_all_pass.
  - apply lit_rule_wf, Hne.
  - intros c r Hin. unfold lit_rule. rewrite origin_head_none; [reflexivity|].
    cbn in Hin. repeat destruct Hin as [<- | Hin]; try reflexivity. destruct Hin.
  - apply match_location_000_wf.
  - intros c r Hin. unfold match_location_000. rewrite origin_head_none; [reflexivity|].
    cbn in Hin. repeat destruct Hin as [<- | Hin]; try reflexivity. destruct Hin.
Qed.

End LocationFacts.

(** X17: a Location header that already points into the game,
    [https://orteil.dashnet.org/cookieclicker...], is rewritten by both
    part_000 and part_001 to [/cookieclicker/cookieclicker...]: the origin
    is replaced by the prefix and the path keeps its own [/cookieclicker]. *)
Theorem X17_location_double_prefix (hs : headers) (t : text) :
  hget (hdr "location") hs = Some (HStr (origin_https ++ PROXY_PREFIX ++ t)) ->
  rewrite_location match_location_000 hs =
    Some (update_key (hdr "location")
            (HStr (proxyPath ++ proxyPath ++ replace_all match_location_000 t)) hs) /\
  rewrite_location (lit_rule origin_pats PROXY_PREFIX) hs =
    Some (update_key (hdr "location")
            (HStr (PROXY_PREFIX ++ PROXY_PREFIX ++ replace_all (lit_rule origin_pats PROXY_PREFIX) t)) hs).
Proof.
  intros H. unfold rewrite_location. rewrite H.
  assert (Ht : truthy (Some (HStr (origin_https ++ PROXY_PREFIX ++ t))) = true) by reflexivity.
  rewrite Ht. destruct pats_nonempty as (_ & Hne & _).
  destruct (cookieclicker_pass PROXY_PREFIX t) as [P1 P2]. split.
  - rewrite (replace_all_match _ _ (origin_https ++ [("/")%char]) (proxyPath ++ [("/")%char])
               (lit "cookieclicker" ++ t) match_location_000_wf).
    + rewrite P2, <- app_assoc. reflexivity.
    + unfold match_location_000. rewrite origin_https_first, drop_app_length. reflexivity.
  - rewrite (replace_all_match _ _ origin_https PROXY_PREFIX (PROXY_PREFIX ++ t) (lit_rule_wf _ _ Hne)).
    + rewrite P1. reflexivity.
    + unfold lit_rule. rewrite origin_https_first, drop_app_length. reflexivity.
Qed.

(** X18: on a text without a scheme separator, without integrity and
    crossorigin attributes and without [src=] or [href=], the only change
    [rewriteHtml] of part_001 makes is to put its script before the first
    closing head tag found case-insensitively; [rewriteText] of part_002
    does the same with its script only when a lower-case [</head>] occurs,
    and otherwise returns the text unchanged. *)
Theorem X18_injection_guards (s pb : text) :
  contains scheme_sep s = false -> contains integrity_open s = false ->
  contains crossorigin_open s = false ->
  contains (lit "src=") s = false -> contains (lit "href=") s = false ->
  rewriteHtml s pb = replace_first_ci head_close (injection ++ head_close) s /\
  rewriteText_002 s pb =
    (if contains head_close s then replace_first_ci head_close (safeScript ++ head_close) s else s).
Proof.
  intros Hs Hi Hc Hsrc Hhref.
  destruct (revisions_plain s pb Hs Hi Hc) as (P1 & P2 & P3 & P4 & P5 & P6). split.
  - unfold rewriteHtml. cbv zeta. rewrite P1, P2, P4, P5, P6.
    unfold rewrite_src_proto_rel, rewrite_href_proto_rel.
    rewrite (proto_rel_plain (lit "src") s Hsrc), (proto_rel_plain (lit "href") s Hhref).
    reflexivity.
  - unfold rewriteText_002. cbv zeta. rewrite P1, P2, P3, P4, P5, P6. reflexivity.
Qed.

(** ** Witnesses of the extra properties *)

(** X3 at a URL written without percent signs. *)
Lemma X3_witness : decodeURIComponent (lit "https://dashnet.org/a") =
                   Some (map N_of_ascii (lit "https://dashnet.org/a")).
Proof.
  apply X3_decode_plain. repeat constructor; intros Heq; discriminate Heq.
Defined.

(** X4 at a page with the browser-verification marker and status 200. *)
Lemma X4_witness : isCloudflareChallengeStatus 200 (lit "<div id=cf-browser-verification></div>") = true.
Proof.
  apply X4_isCF_included; [vm_compute; reflexivity | lia].
Defined.

(** X6 at an entry that expires at time 5, read at time 3. *)
Lemma X6_witness :
  let url := map N_of_ascii (lit "https://fonts.gstatic.com/a.png") in
  let out := {| f_status := 200; f_headers := [(hdr "content-type", HStr (lit "image/png"))];
                f_body := body_of "PNG" |} in
  let st := {| fcache := <[fetch_key url := (out, 5%N)]> ∅; fnow := 3%N; fcalls := [] |} in
  backendFetch toy_request url false st = (Some out, st).
Proof.
  intros url out st. apply (X6_backendFetch_hit toy_request url st out 5%N).
  - vm_compute. reflexivity.
  - vm_compute. discriminate.
Defined.

(** X7 at an entry that expired at time 1, read at time 5. *)
Lemma X7_witness :
  let url := map N_of_ascii (lit "https://fonts.gstatic.com/a.png") in
  let out := {| f_status := 200; f_headers := [(hdr "content-type", HStr (lit "image/png"))];
                f_body := body_of "OLD" |} in
  let st := {| fcache := <[fetch_key url := (out, 1%N)]> ∅; fnow := 5%N; fcalls := [] |} in
  fcalls (backendFetch toy_request url false st).2 = [url].
Proof.
  intros url out st.
  exact (proj1 (X7_backendFetch_miss toy_request url st ltac:(vm_compute; reflexivity))).
Defined.

(** X9 at an allowed image fetched for a response that already carries a
    content security policy. *)
Lemma X9_witness :
  let st := {| fcache := ∅; fnow := 0%N; fcalls := [] |} in
  let init := [(hdr "content-security-policy", HStr (lit "default-src self"))] in
  let raw := Some (lit "https%3A%2F%2Ffonts.gstatic.com%2Fa.png") in
  exists code hs body st',
    fetch_handler toy_request toy_hostname raw init st = (FStatus code hs body, st') /\
    get_ci (hdr "content-security-policy") hs = Some (HStr (lit "default-src self")).
Proof.
  intros st init raw.
  destruct (fetch_handler toy_request toy_hostname raw init st) as [[code hs body|] st'] eqn:E;
    [|vm_compute in E; discriminate E].
  exists code, hs, body, st'. split; [reflexivity|].
  apply (X9_fetch_strips toy_request toy_hostname raw init st code hs body st'
           (hdr "content-security-policy")).
  - intros u o Hr. injection Hr as <-. repeat constructor.
  - intros k' e Hk. unfold st in Hk. cbn [fcache] in Hk. rewrite lookup_empty in Hk. discriminate Hk.
  - exact E.
  - left. reflexivity.
Defined.

(** X10 at an upstream answering with [cache-control: max-age=60]. *)
Lemma X10_witness :
  let url := map N_of_ascii (lit "https://cdn.jsdelivr.net/a.js") in
  let out := {| f_status := 200; f_headers := [(hdr "cache-control", HStr (lit "max-age=60"))];
                f_body := body_of "x" |} in
  let st := {| fcache := ∅; fnow := 0%N; fcalls := [] |} in
  backendFetch_001 (fun _ => Some out) url true st = (Some out, cache_set (fetch_key url) out (log_call url st)).
Proof.
  intros url out st. apply (X10_backendFetch_001_noCache (fun _ => Some out) url st out).
  - reflexivity.
  - vm_compute. reflexivity.
Defined.

(** X11 at an uncompressed image with a content-length. *)
Lemma X11_witness :
  let up := {| up_status := 0;
               up_headers := [(hdr "content-type", HStr (lit "image/png")); (hdr "content-length", HNum 3)];
               up_body := body_of "PNG" |} in
  exists hs, onProxyRes toy_codecs up [] = Sent 200 hs (up_body up) /\
    get_ci (hdr "content-length") hs = None.
Proof.
  intros up.
  destruct (X11_binary_relay toy_codecs up [] [] (lit "image/png")
              ltac:(reflexivity) ltac:(reflexivity) ltac:(vm_compute; reflexivity)) as (hs & E & Hl & _).
  exists hs. split; [exact E | exact Hl].
Defined.

(** X12 at an HTML page sent with a content security policy. *)
Lemma X12_witness :
  let up := {| up_status := 200;
               up_headers := [(hdr "content-type", HStr (lit "text/html"));
                              (hdr "content-security-policy", HStr (lit "frame-ancestors none"))];
               up_body := body_of "<html></html>" |} in
  exists hs out, onProxyRes toy_codecs up [] = Sent 200 hs out /\
    get_ci (hdr "content-security-policy") hs = None.
Proof.
  intros up.
  destruct (X12_rewrite_drops_frame_headers toy_codecs up [] [] (lit "text/html")
              ltac:(reflexivity) ltac:(reflexivity) ltac:(vm_compute; reflexivity)
              ltac:(vm_compute; reflexivity)) as (hs & out & E & Hc & _).
  exists hs, out. split; [exact E | exact Hc].
Defined.

(** X13 at a deflate-compressed challenge page. *)
Lemma X13_witness :
  let up := {| up_status := 503;
               up_headers := [(hdr "content-type", HStr (lit "text/html"));
                              (hdr "content-encoding", HStr (lit "deflate"))];
               up_body := deflateSync toy_codecs (body_of "<html>wait</html>") |} in
  exists hs v, onProxyRes_002 toy_codecs up [] = Sent 503 hs (body_of "<html>wait</html>") /\
    get_ci (hdr "content-encoding") hs = Some v /\ lower_header (Some v) = Some (lit "deflate").
Proof.
  intros up.
  apply (X13_002_deflate_challenge toy_codecs up [] (lit "text/html") (body_of "<html>wait</html>")).
  - repeat constructor.
  - cbn [up_headers map fst].
    constructor; [rewrite list_elem_of_In; intros [H|[]]; vm_compute in H; discriminate H|].
    constructor; [rewrite list_elem_of_In; intros []|constructor].
  - reflexivity.
  - reflexivity.
  - reflexivity.
  - vm_compute. reflexivity.
Defined.

(** X14 at an HTML page sent with a content security policy. *)
Lemma X14_witness :
  let up := {| up_status := 200;
               up_headers := [(hdr "content-type", HStr (lit "text/html"));
                              (hdr "content-security-policy", HStr (lit "frame-ancestors none"))];
               up_body := body_of "<html></html>" |} in
  exists st hs body, onProxyRes_000 toy_codecs up [] = SentE st hs body /\
    get_ci (hdr "content-security-policy") hs = None.
Proof.
  intros up.
  destruct (onProxyRes_000 toy_codecs up []) as [st hs body| |] eqn:E;
    [|vm_compute in E; discriminate E | vm_compute in E; discriminate E].
  exists st, hs, body. split; [reflexivity|].
  apply (proj1 (X14_revisions_drop_frame_headers toy_codecs up []
                  ltac:(repeat constructor)) st hs body E).
Defined.

(** X15 at a gzip-labelled HTML page whose bytes are not a gzip stream. *)
Lemma X15_witness :
  let up := {| up_status := 200;
               up_headers := [(hdr "content-type", HStr (lit "text/html"));
                              (hdr "content-encoding", HStr (lit "gzip"))];
               up_body := body_of "<html></html>" |} in
  onProxyRes_000 toy_codecs up [] = PipedE /\ onProxyRes_001 toy_codecs up [] = PipedE.
Proof.
  intros up.
  destruct (X15_revisions_decode_failure toy_codecs up [] (lit "text/html") (lit "gzip")
              ltac:(reflexivity) ltac:(vm_compute; reflexivity) ltac:(reflexivity)) as [A B].
  split.
  - apply A; [hdr_neq | vm_compute; reflexivity].
  - apply B; [hdr_neq | vm_compute; reflexivity].
Defined.

(** X16 at an uncompressed HTML page, on a response that already carries a
    content-encoding. *)
Lemma X16_witness :
  let up := {| up_status := 200;
               up_headers := [(hdr "content-type", HStr (lit "text/html"))];
               up_body := body_of "<html></html>" |} in
  exists hs, onProxyRes_000 toy_codecs up [(hdr "content-encoding", HStr (lit "gzip"))] =
    SentE 200 hs (utf8_encode toy_codecs (rewrite_body_000 (utf8_decode toy_codecs (up_body up)))) /\
    get_ci (hdr "content-encoding") hs = None.
Proof.
  intros up.
  destruct (X16_000_identity_encoding toy_codecs up [(hdr "content-encoding", HStr (lit "gzip"))]
              (lit "text/html") ltac:(hdr_neq) ltac:(reflexivity) ltac:(vm_compute; reflexivity)
              ltac:(reflexivity)) as (hs & E & Hc & _).
  exists hs. split; [exact E | exact Hc].
Defined.

(** X17 at a redirect to [https://orteil.dashnet.org/cookieclicker/x]. *)
Lemma X17_witness :
  let hs := [(hdr "location", HStr (origin_https ++ PROXY_PREFIX ++ lit "/x"))] in
  rewrite_location match_location_000 hs =
    Some [(hdr "location", HStr (lit "/cookieclicker/cookieclicker/x"))] /\
  rewrite_location (lit_rule origin_pats PROXY_PREFIX) hs =
    Some [(hdr "location", HStr (lit "/cookieclicker/cookieclicker/x"))].
Proof.
  intros hs. destruct (X17_location_double_prefix hs (lit "/x") ltac:(reflexivity)) as [A B].
  rewrite A, B. split; vm_compute; reflexivity.
Defined.

(** X18 at a page whose closing head tag is written in upper case. *)
Lemma X18_witness :
  let s := lit "<HTML><HEAD></HEAD></HTML>" in
  rewriteHtml s PROXY_PREFIX = lit "<HTML><HEAD>" ++ injection ++ head_close ++ lit "</HTML>" /\
  rewriteText_002 s PROXY_PREFIX = s.
Proof.
  intros s.
  destruct (X18_injection_guards s PROXY_PREFIX ltac:(vm_compute; reflexivity)
              ltac:(vm_compute; reflexivity) ltac:(vm_compute; reflexivity)
              ltac:(vm_compute; reflexivity) ltac:(vm_compute; reflexivity)) as [A B].
  rewrite A, B. split; vm_compute; reflexivity.
Defined.
